(** * Claude UX Consultant: the orchestrator's aggregation and scoring pipeline

    A shallow embedding of [UXOrchestrator] (src/orchestrator.js): the tier
    runners, the merge of analyzer fragments into the running result, and the
    summary engine ([calculateSummary], [calculateOverallScore],
    [estimateFixTime], [getPriorityActions]).

    JavaScript objects are records whose fields are [option string]
    ([None] is [undefined]); [metrics] and [scores] are finite maps keyed by
    strings; asynchronous code is written in a state-and-exception monad over
    the result object being filled and a log of browser events.

    Assumptions of the model: the orchestrator has been initialized (browser
    and default context exist); what is thrown is an [Error] with a message;
    closing a page or a context does not throw; console output is not
    represented; counts stay far below 2^53, so number arithmetic is exact
    integer arithmetic. *)

From Stdlib Require Import ZArith Lia Ascii String.
From stdpp Require Import base option list gmap strings sorting pretty.

Local Open Scope string_scope.
Local Open Scope nat_scope.
Local Open Scope list_scope.

(** ** JavaScript values used by the orchestrator *)

(** A property that holds a string or is absent. *)
Abbreviation prop := (option string) (only parsing).

(** Truthiness of a string-or-undefined value: [undefined] and the empty
    string are falsy. *)
Definition truthy (v : prop) : bool :=
  match v with
  | Some s => negb (String.eqb s "")
  | None => false
  end.

(** [a || b] *)
Definition js_or (a b : prop) : prop := if truthy a then a else b.

(** [a === 'lit'] *)
Definition is_str (a : prop) (lit : string) : bool :=
  match a with
  | Some s => String.eqb s lit
  | None => false
  end.

(** Numbers as the scoring code meets them: an integer or [NaN]. *)
Inductive num :=
  | Num (z : Z)
  | NaN.

Definition num_mul (a b : num) : num :=
  match a, b with
  | Num x, Num y => Num (x * y)
  | _, _ => NaN
  end.

Definition num_sub (a b : num) : num :=
  match a, b with
  | Num x, Num y => Num (x - y)
  | _, _ => NaN
  end.

(** [Math.max]: [NaN] as soon as one argument is [NaN]. *)
Definition Math_max (a b : num) : num :=
  match a, b with
  | Num x, Num y => Num (Z.max x y)
  | _, _ => NaN
  end.

(** [ToNumber] of a count that may be [undefined]. *)
Definition to_number (v : option nat) : num :=
  match v with
  | Some n => Num (Z.of_nat n)
  | None => NaN
  end.

(** Values stored in [metrics] and [scores]. *)
Inductive jsval :=
  | VNum (z : Z)
  | VStr (s : string).

(** ** Data model *)

Record Issue := {
  type : prop;
  severity : prop;
  title : prop;
  description : prop;
  impact : prop;
  i_fix : prop;
  solution : prop
}.

Record Recommendation := {
  r_type : prop;
  r_category : prop;
  r_title : prop;
  r_description : prop;
  r_impact : prop;
  effort : prop;
  suggestion : prop
}.

(** One entry of [summary.priorityActions]. *)
Record PriorityAction := {
  pa_title : prop;
  pa_description : prop;
  pa_action : prop;
  pa_impact : prop
}.

(** The running total of [estimateFixTime]: a number of minutes, or the
    string that [+] produces once one operand is not a number. *)
Inductive total :=
  | Minutes (z : Z)
  | Text.

Record Summary := {
  totalIssues : nat;
  criticalIssues : nat;
  highIssues : nat;
  mediumIssues : nat;
  s_recommendations : nat;
  overallScore : num;
  estimatedFixTime : total;
  priorityActions : list PriorityAction;
  quickWins : nat
}.

(** The result object built by [analyzePage].  [summary = None] is the empty
    object literal the result is created with; [analysisTime] and [error] are
    absent until assigned. *)
Record AnalysisResult := {
  url : string;
  analysisType : string;
  timestamp : string;
  issues : list Issue;
  recommendations : list Recommendation;
  screenshots : list string;
  metrics : gmap string jsval;
  scores : gmap string jsval;
  summary : option Summary;
  analysisTime : prop;
  error : prop
}.

(** ** Summary engine *)

(** [results.summary?.field] *)
Definition summary_field (results : AnalysisResult) (field : Summary -> nat) : option nat :=
  field <$> summary results.

Definition calculateOverallScore (results : AnalysisResult) : num :=
  let maxScore := Num 100 in
  let criticalPenalty := num_mul (to_number (summary_field results criticalIssues)) (Num 20) in
  let highPenalty := num_mul (to_number (summary_field results highIssues)) (Num 10) in
  let mediumPenalty := num_mul (to_number (summary_field results mediumIssues)) (Num 5) in
  Math_max (Num 0)
    (num_sub (num_sub (num_sub maxScore criticalPenalty) highPenalty) mediumPenalty).

(** What [timeEstimates[key]] evaluates to: an own entry of the table, a
    member inherited from [Object.prototype] (a function or object, hence
    truthy and not a number), or [undefined]. *)
Inductive tableEntry :=
  | Own (minutes : Z)
  | Inherited
  | Absent.

Definition objectPrototypeNames : list string :=
  [ "constructor"; "hasOwnProperty"; "isPrototypeOf"; "propertyIsEnumerable";
    "toLocaleString"; "toString"; "valueOf"; "__proto__";
    "__defineGetter__"; "__defineSetter__"; "__lookupGetter__"; "__lookupSetter__" ].

Definition timeEstimates (key : string) : tableEntry :=
  if String.eqb key "critical" then Own 120
  else if String.eqb key "high" then Own 60
  else if String.eqb key "medium" then Own 30
  else if String.eqb key "low" then Own 15
  else if existsb (String.eqb key) objectPrototypeNames then Inherited
  else Absent.

(** [issue.severity || issue.impact || 'medium'] *)
Definition effectiveSeverity (issue : Issue) : prop :=
  js_or (js_or (severity issue) (impact issue)) (Some "medium").

(** [total + (timeEstimates[severity] || 30)] *)
Definition addEstimate (acc : total) (issue : Issue) : total :=
  let key := default "undefined" (effectiveSeverity issue) in
  match acc, timeEstimates key with
  | Minutes t, Own m => Minutes (t + m)
  | Minutes t, Absent => Minutes (t + 30)
  | Minutes _, Inherited => Text
  | Text, _ => Text
  end.

Definition estimateFixTime (issues : list Issue) : total :=
  fold_left addEstimate issues (Minutes 0).

Definition isPriority (issue : Issue) : bool :=
  is_str (severity issue) "critical" || is_str (impact issue) "high".

Definition toAction (issue : Issue) : PriorityAction :=
  {| pa_title := title issue;
     pa_description := description issue;
     pa_action := js_or (i_fix issue) (solution issue);
     pa_impact := js_or (impact issue) (severity issue) |}.

(** [arr.slice(0, n)] *)
Definition slice0 {A} (n : nat) (arr : list A) : list A := take n arr.

Definition getPriorityActions (issues : list Issue) : list PriorityAction :=
  map toAction (slice0 3 (List.filter isPriority issues)).

Definition isCritical (i : Issue) : bool :=
  is_str (severity i) "critical" || is_str (impact i) "high".
Definition isHigh (i : Issue) : bool :=
  is_str (severity i) "high" || is_str (impact i) "medium".
Definition isMedium (i : Issue) : bool :=
  is_str (severity i) "medium" || is_str (impact i) "low".
Definition isQuickWin (r : Recommendation) : bool :=
  is_str (effort r) "low" || is_str (r_impact r) "quick".

Definition set_summary (results : AnalysisResult) (s : option Summary) : AnalysisResult :=
  {| url := url results; analysisType := analysisType results;
     timestamp := timestamp results; issues := issues results;
     recommendations := recommendations results;
     screenshots := screenshots results; metrics := metrics results;
     scores := scores results; summary := s;
     analysisTime := analysisTime results; error := error results |}.

(** The object literal is evaluated in full, [calculateOverallScore] reading
    the summary the result still carries, before it is stored. *)
Definition calculateSummary (results : AnalysisResult) : AnalysisResult :=
  let criticalIssues := List.filter isCritical (issues results) in
  let highIssues := List.filter isHigh (issues results) in
  let mediumIssues := List.filter isMedium (issues results) in
  set_summary results (Some
    {| totalIssues := length (issues results);
       criticalIssues := length criticalIssues;
       highIssues := length highIssues;
       mediumIssues := length mediumIssues;
       s_recommendations := length (recommendations results);
       overallScore := calculateOverallScore results;
       estimatedFixTime := estimateFixTime (issues results);
       priorityActions := getPriorityActions (issues results);
       quickWins := length (List.filter isQuickWin (recommendations results)) |}).

(** ** Collaborators: the browser and the analyzers *)

(** Thrown values are [Error] objects; only their message is observed. *)
Inductive JsError :=
  | Error (message : string).

Definition message (e : JsError) : string :=
  match e with Error m => m end.

Inductive outcome (A : Type) :=
  | Returns (a : A)
  | Throws (e : JsError).
Arguments Returns {A} a.
Arguments Throws {A} e.

(** What an analyzer entry point resolves to.  Every member may be missing:
    the batch merges read them as [value.issues || []]. *)
Record Fragment := {
  f_issues : option (list Issue);
  f_recommendations : option (list Recommendation);
  f_metrics : option (gmap string jsval);
  f_scores : option (gmap string jsval)
}.

(** A settled promise, as [Promise.allSettled] reports it.  A fulfilled
    promise may carry a falsy value ([None]). *)
Inductive Settled :=
  | Fulfilled (value : option Fragment)
  | Rejected (reason : JsError).

(** The promise returned by an [async] analyzer method: when it settles and
    how. *)
Record Promise := {
  settles_at : nat;
  result : Settled
}.

Inductive EntryPoint :=
  | quickScan | quickCheck | quickMetrics
  | fullAudit | comprehensiveAnalysis | detailedMetrics | responsivenessTest
  | elementAnalysis | elementCheck
  | fullMobileAudit.

Inductive Resource :=
  | MainPage
  | MobileContext
  | MobilePage.

(** Observable calls on the collaborators, in program order.  [Open] is
    logged when the resource has been obtained. *)
Inductive Event :=
  | Open (r : Resource)
  | Close (r : Resource)
  | Goto (r : Resource) (target : string)
  | Screenshot (r : Resource)
  | Invoke (a : EntryPoint).

#[global] Instance Resource_eq_dec : EqDecision Resource.
Proof. solve_decision. Defined.
#[global] Instance EntryPoint_eq_dec : EqDecision EntryPoint.
Proof. solve_decision. Defined.
#[global] Instance Event_eq_dec : EqDecision Event.
Proof. solve_decision. Defined.

(** The environment of one [analyzePage] call: how each call on the browser
    ends, what each analyzer promise settles to, and the clock readings.
    [close()] on a page or context is a release and always returns. *)
Record World := {
  newPage : outcome unit;
  goto : string -> outcome unit;
  screenshot : string -> outcome string;
  analyzer : EntryPoint -> Promise;
  newContext : outcome unit;
  mobileNewPage : outcome unit;
  mobileGoto : string -> outcome unit;
  mobileScreenshot : string -> outcome string;
  isoTime : string;
  startTime : Z;
  endTime : Z
}.

(** ** The monad of the asynchronous methods

    State: the result object under construction and the event log.  An
    exception leaves the state as it was when thrown. *)

Record State := {
  res : AnalysisResult;
  log : list Event
}.

Definition M (A : Type) : Type := State -> outcome A * State.

#[global] Instance M_ret : MRet M := fun A (a : A) s => (Returns a, s).

#[global] Instance M_bind : MBind M := fun A B (k : A -> M B) (m : M A) s =>
  match m s with
  | (Returns a, s') => k a s'
  | (Throws e, s') => (Throws e, s')
  end.

Definition throw {A} (e : JsError) : M A := fun s => (Throws e, s).

Definition lift {A} (o : outcome A) : M A := fun s => (o, s).

Definition emit (e : Event) : M unit :=
  fun s => (Returns tt, {| res := res s; log := log s ++ [e] |}).

Definition get : M AnalysisResult := fun s => (Returns (res s), s).

Definition modify (f : AnalysisResult -> AnalysisResult) : M unit :=
  fun s => (Returns tt, {| res := f (res s); log := log s |}).

(** [try { body } catch (error) { handler } finally { cleanup }] where the
    handler and the cleanup do not throw. *)
Definition try_catch_finally {A} (body : M A) (handler : JsError -> M A)
    (cleanup : M unit) : M A :=
  fun s =>
    let '(o, s1) :=
      match body s with
      | (Returns a, s') => (Returns a, s')
      | (Throws e, s') => handler e s'
      end in
    let '(_, s2) := cleanup s1 in
    (o, s2).

(** [await p] *)
Definition await (p : Promise) : M (option Fragment) :=
  match result p with
  | Fulfilled v => mret v
  | Rejected e => throw e
  end.

(** ** Updates of the result object *)

Definition push_issues (new : list Issue) (r : AnalysisResult) : AnalysisResult :=
  {| url := url r; analysisType := analysisType r; timestamp := timestamp r;
     issues := issues r ++ new;
     recommendations := recommendations r; screenshots := screenshots r;
     metrics := metrics r; scores := scores r; summary := summary r;
     analysisTime := analysisTime r; error := error r |}.

Definition push_recommendations (new : list Recommendation) (r : AnalysisResult)
    : AnalysisResult :=
  {| url := url r; analysisType := analysisType r; timestamp := timestamp r;
     issues := issues r;
     recommendations := recommendations r ++ new; screenshots := screenshots r;
     metrics := metrics r; scores := scores r; summary := summary r;
     analysisTime := analysisTime r; error := error r |}.

Definition push_screenshot (path : string) (r : AnalysisResult) : AnalysisResult :=
  {| url := url r; analysisType := analysisType r; timestamp := timestamp r;
     issues := issues r;
     recommendations := recommendations r; screenshots := screenshots r ++ [path];
     metrics := metrics r; scores := scores r; summary := summary r;
     analysisTime := analysisTime r; error := error r |}.

(** [Object.assign(target, source)]: every key of the source overwrites. *)
Definition Object_assign (target source : gmap string jsval) : gmap string jsval :=
  source ∪ target.

Definition assign_metrics (source : gmap string jsval) (r : AnalysisResult)
    : AnalysisResult :=
  {| url := url r; analysisType := analysisType r; timestamp := timestamp r;
     issues := issues r;
     recommendations := recommendations r; screenshots := screenshots r;
     metrics := Object_assign (metrics r) source; scores := scores r;
     summary := summary r;
     analysisTime := analysisTime r; error := error r |}.

Definition assign_scores (source : gmap string jsval) (r : AnalysisResult)
    : AnalysisResult :=
  {| url := url r; analysisType := analysisType r; timestamp := timestamp r;
     issues := issues r;
     recommendations := recommendations r; screenshots := screenshots r;
     metrics := metrics r; scores := Object_assign (scores r) source;
     summary := summary r;
     analysisTime := analysisTime r; error := error r |}.

Definition set_analysisTime (t : string) (r : AnalysisResult) : AnalysisResult :=
  {| url := url r; analysisType := analysisType r; timestamp := timestamp r;
     issues := issues r;
     recommendations := recommendations r; screenshots := screenshots r;
     metrics := metrics r; scores := scores r; summary := summary r;
     analysisTime := Some t; error := error r |}.

Definition set_error (msg : string) (r : AnalysisResult) : AnalysisResult :=
  {| url := url r; analysisType := analysisType r; timestamp := timestamp r;
     issues := issues r;
     recommendations := recommendations r; screenshots := screenshots r;
     metrics := metrics r; scores := scores r; summary := summary r;
     analysisTime := analysisTime r; error := Some msg |}.

(** ** Settling a batch *)

(** Order in which the promises of a batch settle. *)
Definition earlier (a b : nat * Promise) : Prop := (settles_at a.2 <= settles_at b.2)%nat.

#[global] Instance earlier_dec a b : Decision (earlier a b).
Proof. unfold earlier. apply _. Defined.

Definition settle_order (promises : list Promise) : list (nat * Promise) :=
  merge_sort earlier (imap pair promises).

(** Promise number [ip.1] has settled: its outcome goes into its slot. *)
Definition store (arr : list (option Settled)) (ip : nat * Promise)
    : list (option Settled) :=
  <[ip.1 := Some (result ip.2)]> arr.

(** [Promise.allSettled]: the result array has one slot per input promise;
    whenever promise [i] settles its outcome is stored in slot [i]. *)
Definition allSettled (promises : list Promise) : list (option Settled) :=
  foldl store (replicate (length promises) None) (settle_order promises).

(** [arr.forEach(callback)] for a callback that only updates the result
    object; empty slots are skipped. *)
Definition forEach {A} (callback : A -> AnalysisResult -> AnalysisResult)
    (arr : list (option A)) : M unit :=
  modify (fun r =>
    fold_left (fun r slot =>
      match slot with
      | Some x => callback x r
      | None => r
      end) arr r).

(** ** Tier runners *)

(** Callback of the quick batch: a fulfilled, truthy value contributes its
    issues, recommendations and metrics. *)
Definition mergeQuick (result : Settled) (results : AnalysisResult) : AnalysisResult :=
  match result with
  | Fulfilled (Some value) =>
      assign_metrics (default ∅ (f_metrics value))
        (push_recommendations (default [] (f_recommendations value))
          (push_issues (default [] (f_issues value)) results))
  | _ => results
  end.

(** Callback of the deep batch: as above, and the scores. *)
Definition mergeDeep (result : Settled) (results : AnalysisResult) : AnalysisResult :=
  match result with
  | Fulfilled (Some value) =>
      assign_scores (default ∅ (f_scores value))
        (assign_metrics (default ∅ (f_metrics value))
          (push_recommendations (default [] (f_recommendations value))
            (push_issues (default [] (f_issues value)) results)))
  | _ => results
  end.

Definition quickBatch : list EntryPoint := [quickScan; quickCheck; quickMetrics].

Definition deepBatch : list EntryPoint :=
  [fullAudit; comprehensiveAnalysis; detailedMetrics; responsivenessTest].

(** Calling the analyzer methods of a batch, in array-literal order. *)
Definition start (batch : list EntryPoint) : M unit :=
  foldr (fun a rest => emit (Invoke a) ;; rest) (mret tt) batch.

Definition typeErrorUndefined : JsError :=
  Error "Cannot read properties of undefined".
Definition typeErrorNotIterable : JsError :=
  Error "Spread syntax requires ...iterable[Symbol.iterator] to be a function".

(** [...value.member] in an argument list. *)
Definition spread {A} (value : option Fragment) (member : Fragment -> option (list A))
    : M (list A) :=
  match value with
  | None => throw typeErrorUndefined
  | Some v =>
      match member v with
      | None => throw typeErrorNotIterable
      | Some l => mret l
      end
  end.

Section Orchestrator.
Variable w : World.

Definition runQuickAnalysis : M unit :=
  start quickBatch ;;
  let analysisPromises := map (analyzer w) quickBatch in
  let analysisResults := allSettled analysisPromises in
  forEach mergeQuick analysisResults.

Definition runDeepAnalysis : M unit :=
  runQuickAnalysis ;;
  start deepBatch ;;
  let deepAnalysisPromises := map (analyzer w) deepBatch in
  let deepResults := allSettled deepAnalysisPromises in
  forEach mergeDeep deepResults.

Definition runElementAnalysis (selector : prop) : M unit :=
  emit (Invoke elementAnalysis) ;;
  elementResults ← await (analyzer w elementAnalysis) ;
  emit (Invoke elementCheck) ;;
  accessibilityResults ← await (analyzer w elementCheck) ;
  ei ← spread elementResults f_issues ;
  ai ← spread accessibilityResults f_issues ;
  modify (push_issues (ei ++ ai)) ;;
  er ← spread elementResults f_recommendations ;
  ar ← spread accessibilityResults f_recommendations ;
  modify (push_recommendations (er ++ ar)).

Definition runFullAnalysis : M unit :=
  runDeepAnalysis ;;
  lift (newContext w) ;;
  emit (Open MobileContext) ;;
  lift (mobileNewPage w) ;;
  emit (Open MobilePage) ;;
  results ← get ;
  emit (Goto MobilePage (url results)) ;;
  lift (mobileGoto w (url results)) ;;
  emit (Screenshot MobilePage) ;;
  mobileScreenshot ← lift (mobileScreenshot w (url results)) ;
  modify (push_screenshot mobileScreenshot) ;;
  emit (Invoke fullMobileAudit) ;;
  mobileResults ← await (analyzer w fullMobileAudit) ;
  mi ← spread mobileResults f_issues ;
  modify (push_issues mi) ;;
  mr ← spread mobileResults f_recommendations ;
  modify (push_recommendations mr) ;;
  emit (Close MobilePage) ;;
  emit (Close MobileContext).

(** The [switch] on the analysis type; no [default] case. *)
Definition dispatch (analysisType : string) (selector : prop) : M unit :=
  if String.eqb analysisType "quick" then runQuickAnalysis
  else if String.eqb analysisType "deep" then runDeepAnalysis
  else if String.eqb analysisType "element" then runElementAnalysis selector
  else if String.eqb analysisType "full" then runFullAnalysis
  else mret tt.

Definition freshResult (url analysisType : string) : AnalysisResult :=
  {| url := url; analysisType := analysisType; timestamp := isoTime w;
     issues := []; recommendations := []; screenshots := [];
     metrics := ∅; scores := ∅; summary := None;
     analysisTime := None; error := None |}.

(** [analyzePage(url, analysisType, options)], with [options.selector]
    passed directly.  The outcome is what the returned promise settles to,
    with the events of the call. *)
Definition analyzePage (url analysisType : string) (selector : prop)
    : outcome AnalysisResult * list Event :=
  match newPage w with
  | Throws e => (Throws e, [])
  | Returns _ =>
      let body : M AnalysisResult :=
        emit (Goto MainPage url) ;;
        lift (goto w url) ;;
        emit (Screenshot MainPage) ;;
        screenshotPath ← lift (screenshot w url) ;
        modify (push_screenshot screenshotPath) ;;
        dispatch analysisType selector ;;
        modify calculateSummary ;;
        let duration := (endTime w - startTime w)%Z in
        modify (set_analysisTime (pretty duration +:+ "ms")) ;;
        get in
      let handler (error : JsError) : M AnalysisResult :=
        modify (set_error (message error)) ;;
        get in
      let cleanup : M unit := emit (Close MainPage) in
      let '(o, s) :=
        try_catch_finally body handler cleanup
          {| res := freshResult url analysisType; log := [Open MainPage] |} in
      (o, log s)
  end.
End Orchestrator.

(** ** Example worlds *)

Definition emptyFragment : Fragment :=
  {| f_issues := Some []; f_recommendations := Some [];
     f_metrics := Some ∅; f_scores := None |}.

Definition quietPromise : Promise :=
  {| settles_at := 0; result := Fulfilled (Some emptyFragment) |}.

(** Everything succeeds and no analyzer finds anything. *)
Definition calmWorld : World :=
  {| newPage := Returns tt;
     goto := fun _ => Returns tt;
     screenshot := fun _ => Returns "shot.png";
     analyzer := fun _ => quietPromise;
     newContext := Returns tt;
     mobileNewPage := Returns tt;
     mobileGoto := fun _ => Returns tt;
     mobileScreenshot := fun _ => Returns "shot-mobile.png";
     isoTime := "2025-07-15T00:00:00.000Z";
     startTime := 1000;
     endTime := 1250 |}.

Definition withAnalyzer (a : EntryPoint) (p : Promise) (w : World) : World :=
  {| newPage := newPage w; goto := goto w; screenshot := screenshot w;
     analyzer := fun b => if decide (b = a) then p else analyzer w b;
     newContext := newContext w; mobileNewPage := mobileNewPage w;
     mobileGoto := mobileGoto w; mobileScreenshot := mobileScreenshot w;
     isoTime := isoTime w; startTime := startTime w; endTime := endTime w |}.

Definition withMobileGoto (o : outcome unit) (w : World) : World :=
  {| newPage := newPage w; goto := goto w; screenshot := screenshot w;
     analyzer := analyzer w;
     newContext := newContext w; mobileNewPage := mobileNewPage w;
     mobileGoto := fun _ => o; mobileScreenshot := mobileScreenshot w;
     isoTime := isoTime w; startTime := startTime w; endTime := endTime w |}.

Definition withGoto (o : outcome unit) (w : World) : World :=
  {| newPage := newPage w; goto := fun _ => o; screenshot := screenshot w;
     analyzer := analyzer w;
     newContext := newContext w; mobileNewPage := mobileNewPage w;
     mobileGoto := mobileGoto w; mobileScreenshot := mobileScreenshot w;
     isoTime := isoTime w; startTime := startTime w; endTime := endTime w |}.

(** An issue that carries only a severity and an impact. *)
Definition issueWith (sev imp : prop) : Issue :=
  {| type := None; severity := sev; title := None; description := None;
     impact := imp; i_fix := None; solution := None |}.

(** The first finding of the accessibility quick check, as the analyzer
    builds it. *)
Definition missingAltText : Issue :=
  {| type := Some "accessibility"; severity := Some "high";
     title := Some "Missing Alt Text";
     description := Some "3 images missing alt attributes";
     impact := Some "high";
     i_fix := Some "Add descriptive alt text to all images for screen readers";
     solution := None |}.

(** A merged result as [analyzePage] hands it to [calculateSummary]: the
    given issues, no recommendations, and the summary still empty. *)
Definition mergedResult (l : list Issue) : AnalysisResult :=
  push_issues l (freshResult calmWorld "http://localhost:3000" "quick").

Definition scenarioIssues : list Issue :=
  [ issueWith (Some "critical") None; issueWith (Some "high") None;
    issueWith (Some "medium") None; issueWith (Some "medium") None ].

Definition unreachableWorld : World :=
  withGoto (Throws (Error "net::ERR_CONNECTION_REFUSED")) calmWorld.

Definition mobileOfflineWorld : World :=
  withMobileGoto (Throws (Error "net::ERR_INTERNET_DISCONNECTED")) calmWorld.

(** The bug detector's scan rejects; the accessibility check reports one
    issue; the performance metrics report nothing. *)
Definition flakyWorld : World :=
  withAnalyzer quickScan
    {| settles_at := 1;
       result := Rejected (Error "Target page, context or browser has been closed") |}
    (withAnalyzer quickCheck
       {| settles_at := 2;
          result := Fulfilled (Some
            {| f_issues := Some [missingAltText]; f_recommendations := Some [];
               f_metrics := Some ∅; f_scores := None |}) |}
       calmWorld).

(** The bug detector's scan reports a score. *)
Definition scoringScanWorld : World :=
  withAnalyzer quickScan
    {| settles_at := 0;
       result := Fulfilled (Some
         {| f_issues := Some []; f_recommendations := Some [];
            f_metrics := Some {[ "consoleErrors" := VNum 0 ]};
            f_scores := Some {[ "bugScore" := VNum 90 ]} |}) |}
    calmWorld.

(** ** Definitions used to state the properties *)

(** The label an issue is costed under: its severity when that is a
    non-empty string, else its impact when that is one, else [medium]. *)
Definition costLabel (i : Issue) : string :=
  match severity i with
  | Some s =>
      if decide (s = "") then
        match impact i with
        | Some t => if decide (t = "") then "medium" else t
        | None => "medium"
        end
      else s
  | None =>
      match impact i with
      | Some t => if decide (t = "") then "medium" else t
      | None => "medium"
      end
  end.

(** The cost table, with the medium cost for any other label. *)
Definition fixCost (label : string) : Z :=
  if decide (label = "critical") then 120
  else if decide (label = "high") then 60
  else if decide (label = "medium") then 30
  else if decide (label = "low") then 15
  else 30.

Definition issuesOf (f : Fragment) : list Issue := default [] (f_issues f).
Definition recommendationsOf (f : Fragment) : list Recommendation :=
  default [] (f_recommendations f).
Definition metricsOf (f : Fragment) : gmap string jsval := default ∅ (f_metrics f).
Definition scoresOf (f : Fragment) : gmap string jsval := default ∅ (f_scores f).

(** The fragment a settled promise hands to the merge, if any. *)
Definition valueOf (x : Settled) : option Fragment :=
  match x with
  | Fulfilled (Some v) => Some v
  | _ => None
  end.

(** The fragments of the fulfilled analyzers of a batch, in batch order. *)
Definition fulfilledOf (w : World) (batch : list EntryPoint) : list Fragment :=
  omap (λ a, valueOf (result (analyzer w a))) batch.

(** The result after the given fragments have been merged in order, with or
    without their scores. *)
Definition absorb (withScores : bool) (frs : list Fragment) (r : AnalysisResult)
    : AnalysisResult :=
  {| url := url r; analysisType := analysisType r; timestamp := timestamp r;
     issues := issues r ++ concat (issuesOf <$> frs);
     recommendations := recommendations r ++ concat (recommendationsOf <$> frs);
     screenshots := screenshots r;
     metrics := foldl Object_assign (metrics r) (metricsOf <$> frs);
     scores := if withScores
               then foldl Object_assign (scores r) (scoresOf <$> frs)
               else scores r;
     summary := summary r;
     analysisTime := analysisTime r; error := error r |}.

(** The value written last for a key by a sequence of sources. *)
Fixpoint lastWrite (k : string) (sources : list (gmap string jsval)) : option jsval :=
  match sources with
  | [] => None
  | m :: rest =>
      match lastWrite k rest with
      | Some v => Some v
      | None => m !! k
      end
  end.

(** [logs P m]: running [m] only appends events, all of which satisfy [P]. *)
Definition logs {A} (P : Event → Prop) (m : M A) : Prop :=
  ∀ s, ∃ evs, log (m s).2 = log s ++ evs ∧ Forall P evs.

(** [keeps_summary m]: running [m] leaves the stored summary untouched. *)
Definition keeps_summary {A} (m : M A) : Prop :=
  ∀ s, summary (res (m s).2) = summary (res s).

(** The state in which the tier runner starts once the page has loaded and
    the screenshot is taken. *)
Definition loaded (w : World) (url ty path : string) : State :=
  {| res := push_screenshot path (freshResult w url ty);
     log := [Open MainPage; Goto MainPage url; Screenshot MainPage] |}.

Definition elapsed (w : World) : string := pretty (endTime w - startTime w)%Z +:+ "ms".

(** A resource that was opened and never closed. *)
Definition leaked (r : Resource) (evs : list Event) : bool :=
  bool_decide (Open r ∈ evs) && negb (bool_decide (Close r ∈ evs)).

(** Two worlds the orchestrator cannot tell apart: they agree on the
    browser and the clock, on the fragment each promise hands to a batch
    merge, and on the whole outcome of the promises that are awaited
    directly (element checks and mobile audit). *)
Definition sameOutcomes (w w' : World) : Prop :=
  newPage w' = newPage w ∧ goto w' = goto w ∧ screenshot w' = screenshot w
  ∧ newContext w' = newContext w ∧ mobileNewPage w' = mobileNewPage w
  ∧ mobileGoto w' = mobileGoto w ∧ mobileScreenshot w' = mobileScreenshot w
  ∧ isoTime w' = isoTime w ∧ startTime w' = startTime w ∧ endTime w' = endTime w
  ∧ (∀ a, valueOf (result (analyzer w' a)) = valueOf (result (analyzer w a)))
  ∧ (∀ a, a ∉ quickBatch ++ deepBatch →
          result (analyzer w' a) = result (analyzer w a)).

(** The entry points that are called inside a parallel batch. *)
Definition inBatch (a : EntryPoint) : bool :=
  match a with
  | elementAnalysis | elementCheck | fullMobileAudit => false
  | _ => true
  end.

(** A rejected promise turned into one fulfilled with [undefined]. *)
Definition silence (p : Promise) : Promise :=
  match result p with
  | Rejected _ => {| settles_at := settles_at p; result := Fulfilled None |}
  | Fulfilled _ => p
  end.

(** The world in which every rejection inside a parallel batch is replaced
    by a promise fulfilled with [undefined]. *)
Definition silenced (w : World) : World :=
  {| newPage := newPage w; goto := goto w; screenshot := screenshot w;
     analyzer := fun a => if inBatch a then silence (analyzer w a) else analyzer w a;
     newContext := newContext w; mobileNewPage := mobileNewPage w;
     mobileGoto := mobileGoto w; mobileScreenshot := mobileScreenshot w;
     isoTime := isoTime w; startTime := startTime w; endTime := endTime w |}.

(** A world in which the promises settle at other times. *)
Definition retimed (t : EntryPoint → nat) (w : World) : World :=
  {| newPage := newPage w; goto := goto w; screenshot := screenshot w;
     analyzer := fun a => {| settles_at := t a; result := result (analyzer w a) |};
     newContext := newContext w; mobileNewPage := mobileNewPage w;
     mobileGoto := mobileGoto w; mobileScreenshot := mobileScreenshot w;
     isoTime := isoTime w; startTime := startTime w; endTime := endTime w |}.

(** * Further code of the orchestrator and of its callers *)

(** ** The constructor's configuration *)

(** Values a configuration object holds. *)
Inductive cfgval :=
  | CUndefined
  | CNull
  | CBool (b : bool)
  | CNum (z : Z)
  | CStr (s : string)
  | CSize (width height : Z).

Definition cfg_truthy (v : cfgval) : bool :=
  match v with
  | CUndefined | CNull => false
  | CBool b => b
  | CNum z => negb (z =? 0)%Z
  | CStr s => negb (String.eqb s "")
  | CSize _ _ => true
  end.

(** [a || b] *)
Definition cfg_or (a b : cfgval) : cfgval := if cfg_truthy a then a else b.

(** [config.key]: [undefined] for a key the object does not have. *)
Definition cfg_get (config : gmap string cfgval) (key : string) : cfgval :=
  default CUndefined (config !! key).

(** [this.config] as the constructor builds it: the six defaulted members,
    then [...config] over them.  The argument is [None] when the constructor
    is called without one. *)
Definition orchestratorConfig (arg : option (gmap string cfgval))
    : gmap string cfgval :=
  let config := default ∅ arg in
  config ∪
    (<["baseUrl" := cfg_or (cfg_get config "baseUrl") (CStr "http://localhost:3000")]>
     (<["outputDir" := cfg_or (cfg_get config "outputDir") (CStr "./reports")]>
      (<["screenshotDir" := cfg_or (cfg_get config "screenshotDir") (CStr "./screenshots")]>
       (<["timeout" := cfg_or (cfg_get config "timeout") (CNum 30000)]>
        (<["viewport" := cfg_or (cfg_get config "viewport") (CSize 1920 1080)]>
         (<["mobileViewport" := cfg_or (cfg_get config "mobileViewport") (CSize 375 667)]>
          ∅)))))).

(** The configuration of an orchestrator built without argument. *)
Definition configDefaults : gmap string cfgval :=
  <["baseUrl" := CStr "http://localhost:3000"]>
  (<["outputDir" := CStr "./reports"]>
   (<["screenshotDir" := CStr "./screenshots"]>
    (<["timeout" := CNum 30000]>
     (<["viewport" := CSize 1920 1080]>
      (<["mobileViewport" := CSize 375 667]> ∅))))).

(** ** [sanitizeFilename]

    A string is read as its sequence of code units; the characters of a
    Rocq string are the code units below 256. *)

Definition inRange (lo hi : nat) (c : ascii) : bool :=
  (lo <=? nat_of_ascii c) && (nat_of_ascii c <=? hi).

(** A code unit that [/[a-z0-9]/i] matches. *)
Definition isAlnum (c : ascii) : bool :=
  inRange 48 57 c || inRange 65 90 c || inRange 97 122 c.

Fixpoint mapChars (f : ascii → ascii) (s : string) : string :=
  match s with
  | EmptyString => EmptyString
  | String c rest => String (f c) (mapChars f rest)
  end.

(** [s.replace(/[^a-z0-9]/gi, '_')] *)
Definition replaceNonAlnum (s : string) : string :=
  mapChars (λ c, if isAlnum c then c else "_"%char) s.

(** Lower case of one code unit below 256: the letters A to Z and the
    accented capitals of Latin-1 (all of 192..222 but the multiplication
    sign) move up by 32. *)
Definition lowerChar (c : ascii) : ascii :=
  if inRange 65 90 c || (inRange 192 222 c && negb (inRange 215 215 c))
  then ascii_of_nat (nat_of_ascii c + 32)
  else c.

(** [s.toLowerCase()] *)
Definition toLowerCase (s : string) : string := mapChars lowerChar s.

Definition sanitizeFilename (url : string) : string :=
  toLowerCase (replaceNonAlnum url).

(** The characters a sanitized name is made of. *)
Definition isNameChar (c : ascii) : bool :=
  inRange 48 57 c || inRange 97 122 c || Ascii.eqb c "_"%char.

(** ** [generateNextSteps] *)

(** [v > 0] for a count that may be [undefined]. *)
Definition positive (v : option nat) : bool :=
  match v with
  | Some n => 0 <? n
  | None => false
  end.

(** A count that may be [undefined], inside a template string. *)
Definition showCount (v : option nat) : string :=
  match v with
  | Some n => pretty n
  | None => "undefined"
  end.

Definition greatJob : string :=
  "✅ Great job! No major issues found. Consider running deep analysis for optimization opportunities.".

Definition generateNextSteps (results : AnalysisResult) : list string :=
  let steps := [] in
  let steps :=
    if positive (summary_field results criticalIssues)
    then steps ++ ["🚨 Fix " +:+ showCount (summary_field results criticalIssues)
                     +:+ " critical issues immediately"]
    else steps in
  let steps :=
    if positive (summary_field results highIssues)
    then steps ++ ["🔴 Address " +:+ showCount (summary_field results highIssues)
                     +:+ " high priority issues this sprint"]
    else steps in
  let steps :=
    if positive (summary_field results quickWins)
    then steps ++ ["⚡ Implement " +:+ showCount (summary_field results quickWins)
                     +:+ " quick wins for easy improvements"]
    else steps in
  let steps :=
    if (length (issues results) =? 0)
    then steps ++ [greatJob]
    else steps in
  steps.

(** ** Definitions used to state the further properties *)

(** The members of a result that no tier runner writes. *)
Definition envelope (r : AnalysisResult)
    : string * string * string * option Summary * option string * option string :=
  (url r, analysisType r, timestamp r, summary r, analysisTime r, error r).

(** [keeps_envelope m]: running [m] leaves those members as they were. *)
Definition keeps_envelope {A} (m : M A) : Prop :=
  ∀ s, envelope (res (m s).2) = envelope (res s).

(** Both element analyzers fulfil with objects that have an [issues] and a
    [recommendations] array. *)
Definition elementFragments (w : World) (fv fa : Fragment)
    (ei ai : list Issue) (er ar : list Recommendation) : Prop :=
  result (analyzer w elementAnalysis) = Fulfilled (Some fv)
  ∧ result (analyzer w elementCheck) = Fulfilled (Some fa)
  ∧ f_issues fv = Some ei ∧ f_recommendations fv = Some er
  ∧ f_issues fa = Some ai ∧ f_recommendations fa = Some ar.

(** ** Further example worlds *)

(** The visual analysis finds one issue; the accessibility check rejects. *)
Definition elementCheckFailsWorld : World :=
  withAnalyzer elementAnalysis
    {| settles_at := 0;
       result := Fulfilled (Some
         {| f_issues := Some [missingAltText]; f_recommendations := Some [];
            f_metrics := None; f_scores := None |}) |}
    (withAnalyzer elementCheck
       {| settles_at := 0; result := Rejected (Error "Execution context was destroyed") |}
       calmWorld).

(** Both element analyzers find something and report metrics. *)
Definition elementWorld : World :=
  withAnalyzer elementAnalysis
    {| settles_at := 0;
       result := Fulfilled (Some
         {| f_issues := Some [missingAltText]; f_recommendations := Some [];
            f_metrics := Some {[ "totalHeadings" := VNum 4 ]}; f_scores := None |}) |}
    (withAnalyzer elementCheck
       {| settles_at := 0;
          result := Fulfilled (Some
            {| f_issues := Some [issueWith (Some "high") (Some "high")];
               f_recommendations := Some [];
               f_metrics := None; f_scores := None |}) |}
       calmWorld).

(** Every step of the mobile part of the full tier succeeds, and the mobile
    audit fulfils with an object that has an [issues] and a
    [recommendations] array. *)
Definition mobileSucceeds (w : World) (u shot : string) (fm : Fragment)
    (mi : list Issue) (mr : list Recommendation) : Prop :=
  newContext w = Returns tt ∧ mobileNewPage w = Returns tt
  ∧ mobileGoto w u = Returns tt ∧ mobileScreenshot w u = Returns shot
  ∧ result (analyzer w fullMobileAudit) = Fulfilled (Some fm)
  ∧ f_issues fm = Some mi ∧ f_recommendations fm = Some mr.

(** * Properties of the summary engine *)

Section Scoring.
Implicit Types (r : AnalysisResult) (l : list Issue).

(** While the result still carries the empty summary it was created with,
    every penalty is [undefined * k]. *)
Lemma calculateOverallScore_empty_summary r :
  summary r = None → calculateOverallScore r = NaN.
Proof.
  intros Hs. unfold calculateOverallScore, summary_field. now rewrite Hs.
Qed.

(** Once a summary is stored, the score is the clamped formula over the
    counts of that stored summary. *)
Lemma calculateOverallScore_stored r s :
  summary r = Some s →
  calculateOverallScore r =
    Num (Z.max 0 (100 - Z.of_nat (criticalIssues s) * 20
                      - Z.of_nat (highIssues s) * 10
                      - Z.of_nat (mediumIssues s) * 5)).
Proof.
  intros Hs. unfold calculateOverallScore, summary_field. now rewrite Hs.
Qed.
End Scoring.

(** The score [calculateSummary] stores on a result whose summary is still
    empty is [NaN], whatever the issues are. *)
Lemma calculateSummary_fresh_score (r : AnalysisResult) :
  summary r = None →
  overallScore <$> summary (calculateSummary r) = Some NaN.
Proof.
  intros Hs. cbn. f_equal. by apply calculateOverallScore_empty_summary.
Qed.

(** C2.  Finalizing the scenario result the way [analyzePage] does (its
    summary still empty) stores the counts 1, 1 and 2 and, as overall
    score, [NaN]: not the value of the formula on those counts, which is 60,
    and not 50. *)
Theorem scenario_summary_score_is_NaN :
  ∃ s, summary (calculateSummary (mergedResult scenarioIssues)) = Some s
       ∧ criticalIssues s = 1 ∧ highIssues s = 1 ∧ mediumIssues s = 2
       ∧ overallScore s = NaN
       ∧ Z.max 0 (100 - 20 * Z.of_nat (criticalIssues s)
                      - 10 * Z.of_nat (highIssues s)
                      - 5 * Z.of_nat (mediumIssues s)) = 60%Z
       ∧ overallScore s ≠ Num 60
       ∧ overallScore s ≠ Num 50.
Proof.
  eexists. split; [reflexivity |]. cbn. repeat split; discriminate.
Qed.

(** C3.  Running [calculateSummary] twice does not give the summary of
    running it once: on the scenario the first run stores [NaN] as the
    score (the result still carries its empty summary), and the second run,
    reading the counts the first one stored, stores 60. *)
Theorem calculateSummary_twice_differs :
  (overallScore <$> summary (calculateSummary (mergedResult scenarioIssues)) = Some NaN)
  ∧ (overallScore <$> summary (calculateSummary (calculateSummary (mergedResult scenarioIssues)))
     = Some (Num 60))
  ∧ summary (calculateSummary (calculateSummary (mergedResult scenarioIssues)))
    ≠ summary (calculateSummary (mergedResult scenarioIssues)).
Proof.
  split; [reflexivity |]. split; [vm_compute; reflexivity |].
  intros H. apply (f_equal (fmap overallScore)) in H. vm_compute in H. discriminate.
Qed.

(** ** Severity counts *)

Lemma is_str_spec (a : prop) (lit : string) : is_str a lit = true ↔ a = Some lit.
Proof.
  destruct a as [s |]; simpl; [| split; discriminate].
  destruct (String.eqb_spec s lit) as [-> | Hne]; split; try done.
  intros [= ->]. done.
Qed.

(** The boolean filter of the code against the same selection written as a
    proposition. *)
Lemma List_filter_decide {A} (f : A → bool) (P : A → Prop) `{!∀ x, Decision (P x)} :
  (∀ x, f x = true ↔ P x) → ∀ l : list A, List.filter f l = filter P l.
Proof.
  intros Hf. induction l as [| x l IH]; [done |].
  simpl. rewrite filter_cons. destruct (f x) eqn:Hx.
  - rewrite decide_True by (by apply Hf). by rewrite IH.
  - rewrite decide_False; [done |]. intros HP. apply Hf in HP. congruence.
Qed.

Lemma isCritical_spec i :
  isCritical i = true ↔ severity i = Some "critical" ∨ impact i = Some "high".
Proof. unfold isCritical. rewrite orb_true_iff, !is_str_spec. done. Qed.

Lemma isHigh_spec i :
  isHigh i = true ↔ severity i = Some "high" ∨ impact i = Some "medium".
Proof. unfold isHigh. rewrite orb_true_iff, !is_str_spec. done. Qed.

Lemma isMedium_spec i :
  isMedium i = true ↔ severity i = Some "medium" ∨ impact i = Some "low".
Proof. unfold isMedium. rewrite orb_true_iff, !is_str_spec. done. Qed.

(** One severity and one impact can satisfy at most two of the three tests. *)
Lemma not_in_all_three i :
  isCritical i = true → isHigh i = true → isMedium i = true → False.
Proof.
  rewrite isCritical_spec, isHigh_spec, isMedium_spec.
  intros [Hc | Hc] [Hh | Hh] [Hm | Hm]; congruence.
Qed.

Lemma filter_length_le_total {A} (f : A → bool) (l : list A) :
  length (List.filter f l) ≤ length l.
Proof. induction l as [| x l IH]; simpl; [lia |]. destruct (f x); simpl; lia. Qed.

Lemma three_counts_bound (l : list Issue) :
  length (List.filter isCritical l) + length (List.filter isHigh l)
    + length (List.filter isMedium l) ≤ 2 * length l.
Proof.
  induction l as [| i l IH]; simpl; [lia |].
  destruct (isCritical i) eqn:Hc, (isHigh i) eqn:Hh, (isMedium i) eqn:Hm;
    simpl; try lia.
  destruct (not_in_all_three i Hc Hh Hm).
Qed.

(** C4 (as the code has it).  The summary has three severity counts and no
    low count.  Each is computed on its own: [criticalIssues] counts the
    issues whose severity is critical or whose impact is high, [highIssues]
    those whose severity is high or whose impact is medium, [mediumIssues]
    those whose severity is medium or whose impact is low.  Each count is at
    most [totalIssues], which is the number of issues, and since an issue may
    be counted twice the three together are at most twice that number. *)
Theorem severity_counts (r : AnalysisResult) :
  ∃ s, summary (calculateSummary r) = Some s
    ∧ totalIssues s = length (issues r)
    ∧ criticalIssues s =
        length (filter (λ i, severity i = Some "critical" ∨ impact i = Some "high")
                       (issues r))
    ∧ highIssues s =
        length (filter (λ i, severity i = Some "high" ∨ impact i = Some "medium")
                       (issues r))
    ∧ mediumIssues s =
        length (filter (λ i, severity i = Some "medium" ∨ impact i = Some "low")
                       (issues r))
    ∧ criticalIssues s ≤ totalIssues s
    ∧ highIssues s ≤ totalIssues s
    ∧ mediumIssues s ≤ totalIssues s
    ∧ criticalIssues s + highIssues s + mediumIssues s ≤ 2 * totalIssues s.
Proof.
  eexists. split; [reflexivity |]. cbn [totalIssues criticalIssues highIssues mediumIssues].
  split; [reflexivity |].
  split; [by rewrite (List_filter_decide _ _ isCritical_spec) |].
  split; [by rewrite (List_filter_decide _ _ isHigh_spec) |].
  split; [by rewrite (List_filter_decide _ _ isMedium_spec) |].
  split; [apply filter_length_le_total |].
  split; [apply filter_length_le_total |].
  split; [apply filter_length_le_total |].
  apply three_counts_bound.
Qed.

(** C4, as stated.  The one issue "Missing Alt Text" of the accessibility
    quick check (severity high, impact high) is counted as critical and as
    high, so no fourth count can make the counts sum to the total; and an
    issue with neither severity nor impact is counted nowhere, not as
    medium. *)
Lemma severity_counts_not_a_partition :
  (∃ s, summary (calculateSummary (mergedResult [missingAltText])) = Some s
        ∧ totalIssues s = 1 ∧ criticalIssues s = 1 ∧ highIssues s = 1
        ∧ ∀ low : nat,
            criticalIssues s + highIssues s + mediumIssues s + low ≠ totalIssues s)
  ∧ (∃ s, summary (calculateSummary (mergedResult [issueWith None None])) = Some s
        ∧ totalIssues s = 1
        ∧ criticalIssues s = 0 ∧ highIssues s = 0 ∧ mediumIssues s = 0).
Proof.
  split; eexists; (split; [reflexivity |]); cbn; repeat split.
  intros low. lia.
Qed.

(** ** Priority actions *)

(** The first [n] matches of a filter are all the matches of a prefix, and
    the prefix is the whole list when fewer than [n] matched. *)
Lemma take_filter_prefix {A} (f : A → bool) (n : nat) (l : list A) :
  ∃ pre post,
    l = pre ++ post
    ∧ take n (List.filter f l) = List.filter f pre
    ∧ (length (List.filter f pre) < n → post = []).
Proof.
  revert n. induction l as [| x l IH]; intros n.
  - exists [], []. repeat split. by destruct n.
  - destruct n as [| n].
    + exists [], (x :: l). repeat split. simpl. lia.
    + simpl. destruct (f x) eqn:Hx.
      * destruct (IH n) as (pre & post & -> & Htake & Hall).
        exists (x :: pre), post. simpl. rewrite Hx. simpl.
        repeat split; [by rewrite Htake | intros; apply Hall; lia].
      * destruct (IH (S n)) as (pre & post & -> & Htake & Hall).
        exists (x :: pre), post. simpl. rewrite Hx. by repeat split.
Qed.

Lemma isPriority_spec i :
  isPriority i = true ↔ severity i = Some "critical" ∨ impact i = Some "high".
Proof. unfold isPriority. rewrite orb_true_iff, !is_str_spec. done. Qed.

(** [getPriorityActions] on a list: at most three entries, the renderings
    in order of all the matching issues of a prefix, which is the whole list
    unless three matched. *)
Lemma getPriorityActions_prefix (l : list Issue) :
  length (getPriorityActions l) ≤ 3
  ∧ ∃ pre post,
      l = pre ++ post
      ∧ let selected :=
          filter (λ i, severity i = Some "critical" ∨ impact i = Some "high") pre in
        getPriorityActions l =
          map (λ i, {| pa_title := title i;
                       pa_description := description i;
                       pa_action := js_or (i_fix i) (solution i);
                       pa_impact := js_or (impact i) (severity i) |}) selected
        ∧ (length selected < 3 → post = [])
        ∧ (∀ i, i ∈ selected →
             i ∈ l ∧ (severity i = Some "critical" ∨ impact i = Some "high")).
Proof.
  unfold getPriorityActions, slice0. split.
  - rewrite length_map, length_take. lia.
  - destruct (take_filter_prefix isPriority 3 l) as (pre & post & Hl & Htake & Hall).
    exists pre, post. split; [done |].
    rewrite Htake, (List_filter_decide _ _ isPriority_spec) in *.
    split; [done |]. split; [done |].
    intros i Hi. apply list_elem_of_filter in Hi as [HP Hin].
    split; [| done]. rewrite Hl. apply elem_of_app. by left.
Qed.

(** C8.  In the summary [calculateSummary] stores, [priorityActions] has at
    most three entries.  They are the renderings, in order, of all the
    issues of a prefix of [issues] whose severity is critical or whose
    impact is high, and that prefix is the whole list unless three were
    found: the first such issues in insertion order, never re-sorted.  Each
    entry takes its title and description from its issue, its action from
    [fix || solution] and its impact from [impact || severity]. *)
Theorem priorityActions_first_three (r : AnalysisResult) :
  ∃ s, summary (calculateSummary r) = Some s
    ∧ length (priorityActions s) ≤ 3
    ∧ ∃ pre post,
        issues r = pre ++ post
        ∧ let selected :=
            filter (λ i, severity i = Some "critical" ∨ impact i = Some "high") pre in
          priorityActions s =
            map (λ i, {| pa_title := title i;
                         pa_description := description i;
                         pa_action := js_or (i_fix i) (solution i);
                         pa_impact := js_or (impact i) (severity i) |}) selected
          ∧ (length selected < 3 → post = [])
          ∧ (∀ i, i ∈ selected →
               i ∈ issues r
               ∧ (severity i = Some "critical" ∨ impact i = Some "high")).
Proof.
  eexists. split; [reflexivity |]. cbn [priorityActions].
  apply getPriorityActions_prefix.
Qed.

(** ** Estimated fix time *)

Lemma truthy_spec (v : prop) : truthy v = true ↔ ∃ s, v = Some s ∧ s ≠ "".
Proof.
  destruct v as [s |]; simpl.
  - destruct (String.eqb_spec s "") as [-> | Hne]; simpl; split; try done.
    + intros (? & [= <-] & ?). done.
    + eauto.
  - split; [done | intros (? & ? & ?); done].
Qed.

Lemma effectiveSeverity_costLabel i :
  default "undefined" (effectiveSeverity i) = costLabel i.
Proof.
  unfold effectiveSeverity, costLabel, js_or, truthy.
  destruct (severity i) as [s |], (impact i) as [t |]; simpl;
    repeat (case_decide; subst; simpl); try done;
    repeat match goal with
           | |- context [String.eqb ?a ?b] =>
               destruct (String.eqb_spec a b); subst; simpl; try done
           end.
Qed.

Lemma timeEstimates_not_inherited (key : string) :
  key ∉ objectPrototypeNames →
  timeEstimates key = Own (fixCost key)
  ∨ (timeEstimates key = Absent ∧ fixCost key = 30%Z).
Proof.
  intros Hk. unfold timeEstimates, fixCost.
  destruct (String.eqb_spec key "critical") as [-> | H1]; [by left |].
  destruct (String.eqb_spec key "high") as [-> | H2]; [by left |].
  destruct (String.eqb_spec key "medium") as [-> | H3]; [by left |].
  destruct (String.eqb_spec key "low") as [-> | H4]; [by left |].
  rewrite !decide_False by done.
  destruct (existsb (String.eqb key) objectPrototypeNames) eqn:Hex; [| by right].
  exfalso. apply Hk. apply existsb_exists in Hex as (x & Hin & Hx).
  apply String.eqb_eq in Hx as ->. by apply list_elem_of_In.
Qed.

Lemma addEstimate_minutes (t : Z) (i : Issue) :
  costLabel i ∉ objectPrototypeNames →
  addEstimate (Minutes t) i = Minutes (t + fixCost (costLabel i)).
Proof.
  intros Hk. unfold addEstimate. rewrite effectiveSeverity_costLabel.
  destruct (timeEstimates_not_inherited _ Hk) as [-> | [-> ->]]; done.
Qed.

Lemma fold_addEstimate (l : list Issue) (t : Z) :
  Forall (λ i, costLabel i ∉ objectPrototypeNames) l →
  fold_left addEstimate l (Minutes t)
  = Minutes (t + foldr (λ i acc, fixCost (costLabel i) + acc)%Z 0%Z l).
Proof.
  intros Hl. revert t. induction Hl as [| i l Hi Hl IH]; intros t; cbn [fold_left foldr].
  - f_equal. lia.
  - rewrite addEstimate_minutes by done. rewrite IH. f_equal. lia.
Qed.

(** [estimateFixTime] on a list none of whose issues is costed under an
    inherited name: the sum of the costs of the labels. *)
Lemma estimateFixTime_minutes (l : list Issue) :
  Forall (λ i, costLabel i ∉ objectPrototypeNames) l →
  estimateFixTime l = Minutes (foldr (λ i acc, fixCost (costLabel i) + acc)%Z 0%Z l).
Proof.
  intros Hl. unfold estimateFixTime. rewrite fold_addEstimate by done. f_equal.
Qed.

(** C9 (as the code has it).  When no issue is costed under a name that
    every object inherits, the [estimatedFixTime] that [calculateSummary]
    stores is the sum over all issues of the cost of the issue's label
    (critical 120, high 60, medium 30, low 15, any other label 30), where
    the label is the severity if the issue has a non-empty one, else its
    impact if it has a non-empty one, else medium; no issues give 0. *)
Theorem estimatedFixTime_sum (r : AnalysisResult) :
  Forall (λ i, costLabel i ∉ objectPrototypeNames) (issues r) →
  ∃ s, summary (calculateSummary r) = Some s
    ∧ estimatedFixTime s
      = Minutes (foldr (λ i acc, fixCost (costLabel i) + acc)%Z 0%Z (issues r))
    ∧ (issues r = [] → estimatedFixTime s = Minutes 0).
Proof.
  intros Hl. eexists. split; [reflexivity |]. cbn [estimatedFixTime].
  split; [by apply estimateFixTime_minutes |].
  intros ->. reflexivity.
Qed.

Lemma estimatedFixTime_sum_witness :
  Forall (λ i, costLabel i ∉ objectPrototypeNames)
         (issues (mergedResult scenarioIssues))
  ∧ ∃ s, summary (calculateSummary (mergedResult scenarioIssues)) = Some s
       ∧ estimatedFixTime s = Minutes 240.
Proof.
  assert (H : Forall (λ i, costLabel i ∉ objectPrototypeNames)
                     (issues (mergedResult scenarioIssues))).
  { apply (bool_decide_unpack _). vm_compute. exact I. }
  split; [exact H |].
  destruct (estimatedFixTime_sum (mergedResult scenarioIssues) H)
    as (s & Hs & Htime & _).
  exists s. split; [exact Hs |]. exact Htime.
Defined.

(** C9, as stated.  An issue without a severity is not costed at 30 when it
    has an impact: with impact high the stored estimate is 60.  And a
    severity outside the table that names an inherited member
    ([constructor]) does not add 30: the stored estimate is not a number. *)
Lemma estimatedFixTime_unknown_severity_not_30 :
  (∃ s, summary (calculateSummary (mergedResult [issueWith None (Some "high")]))
          = Some s
        ∧ estimatedFixTime s = Minutes 60
        ∧ estimatedFixTime s ≠ Minutes 30)
  ∧ (∃ s, summary (calculateSummary
                     (mergedResult [issueWith (Some "constructor") None]))
            = Some s
          ∧ estimatedFixTime s = Text).
Proof.
  split; eexists; (split; [reflexivity |]); cbn; repeat split. discriminate.
Qed.

(** * Properties of the batch merge *)

(** ** [Promise.allSettled] reports in input order *)

Section AllSettled.
Variable promises : list Promise.

Lemma store_all_length evs arr : length (foldl store arr evs) = length arr.
Proof.
  revert arr. induction evs as [| ev evs IH]; intros arr; simpl; [done |].
  rewrite IH. apply length_insert.
Qed.

(** Whatever the order of the settlements, the slot of a promise that has
    settled holds that promise's outcome. *)
Lemma store_all_lookup evs arr j p :
  (∀ i q, (i, q) ∈ evs → promises !! i = Some q) →
  (j, p) ∈ evs → j < length arr →
  foldl store arr evs !! j = Some (Some (result p)).
Proof.
  induction evs as [| [i q] evs IH] using rev_ind; intros Hev Hin Hj.
  - by apply elem_of_nil in Hin.
  - rewrite foldl_app. simpl. unfold store at 1. simpl.
    destruct (decide (i = j)) as [-> | Hne].
    + assert (q = p) as ->.
      { assert (promises !! j = Some q) by (apply Hev, elem_of_app; right; by left).
        assert (promises !! j = Some p) by (by apply Hev).
        congruence. }
      apply list_lookup_insert_eq. by rewrite store_all_length.
    + rewrite list_lookup_insert_ne by done.
      apply IH; [| | done].
      * intros i' q' Hi'. apply Hev, elem_of_app. by left.
      * apply elem_of_app in Hin as [Hin | Hin]; [done |].
        apply list_elem_of_singleton in Hin. congruence.
Qed.

Lemma elem_of_settle_order i p :
  (i, p) ∈ settle_order promises ↔ promises !! i = Some p.
Proof.
  unfold settle_order. rewrite merge_sort_Permutation, elem_of_lookup_imap.
  split.
  - intros (i' & p' & [= -> ->] & Hp). done.
  - intros Hp. eauto.
Qed.

Lemma allSettled_input_order :
  allSettled promises = map (λ p, Some (result p)) promises.
Proof.
  apply list_eq. intros j. unfold allSettled.
  rewrite list_lookup_fmap. destruct (promises !! j) as [p |] eqn:Hj; simpl.
  - apply store_all_lookup.
    + intros i q. apply elem_of_settle_order.
    + by apply elem_of_settle_order.
    + rewrite length_replicate. by eapply lookup_lt_Some.
  - apply lookup_ge_None. rewrite store_all_length, length_replicate.
    by apply lookup_ge_None.
Qed.
End AllSettled.

(** ** What a batch adds to the result *)

Lemma lookup_foldl_Object_assign (sources : list (gmap string jsval))
    (target : gmap string jsval) (k : string) :
  foldl Object_assign target sources !! k
  = match lastWrite k sources with
    | Some v => Some v
    | None => target !! k
    end.
Proof.
  revert target. induction sources as [| m rest IH]; intros target; simpl; [done |].
  rewrite IH. destruct (lastWrite k rest); [done |].
  unfold Object_assign. rewrite lookup_union.
  destruct (m !! k), (target !! k); done.
Qed.

Lemma absorb_nil b r : absorb b [] r = r.
Proof. destruct r, b; unfold absorb; simpl; by rewrite !app_nil_r. Qed.

Lemma absorb_cons_quick v frs r :
  absorb false (v :: frs) r = absorb false frs (mergeQuick (Fulfilled (Some v)) r).
Proof. unfold absorb; simpl. by rewrite <- !app_assoc. Qed.

Lemma absorb_cons_deep v frs r :
  absorb true (v :: frs) r = absorb true frs (mergeDeep (Fulfilled (Some v)) r).
Proof. unfold absorb; simpl. by rewrite <- !app_assoc. Qed.

Lemma absorb_app b frs1 frs2 r :
  absorb b (frs1 ++ frs2) r = absorb b frs2 (absorb b frs1 r).
Proof.
  unfold absorb; simpl.
  rewrite !fmap_app, !concat_app, !foldl_app, !app_assoc. by destruct b.
Qed.

Lemma fold_mergeQuick (xs : list Settled) (r : AnalysisResult) :
  fold_left (λ r x, mergeQuick x r) xs r = absorb false (omap valueOf xs) r.
Proof.
  revert r. induction xs as [| x xs IH]; intros r; simpl.
  - by rewrite absorb_nil.
  - rewrite IH. destruct x as [[v |] | e]; simpl; [| done | done].
    by rewrite absorb_cons_quick.
Qed.

Lemma fold_mergeDeep (xs : list Settled) (r : AnalysisResult) :
  fold_left (λ r x, mergeDeep x r) xs r = absorb true (omap valueOf xs) r.
Proof.
  revert r. induction xs as [| x xs IH]; intros r; simpl.
  - by rewrite absorb_nil.
  - rewrite IH. destruct x as [[v |] | e]; simpl; [| done | done].
    by rewrite absorb_cons_deep.
Qed.

Lemma forEach_allSettled (callback : Settled → AnalysisResult → AnalysisResult)
    (promises : list Promise) (s : State) :
  forEach callback (allSettled promises) s
  = (Returns tt,
     {| res := fold_left (λ r x, callback x r) (result <$> promises) (res s);
        log := log s |}).
Proof.
  unfold forEach, modify. rewrite allSettled_input_order. do 2 f_equal.
  generalize (res s). induction promises as [| p ps IH]; intros r; simpl; [done |].
  apply IH.
Qed.

Lemma start_run (batch : list EntryPoint) (s : State) :
  start batch s = (Returns tt, {| res := res s; log := log s ++ (Invoke <$> batch) |}).
Proof.
  revert s. induction batch as [| a batch IH]; intros s; simpl.
  - rewrite app_nil_r. by destruct s.
  - unfold mbind, M_bind, emit. rewrite IH. simpl. by rewrite <- app_assoc.
Qed.

Lemma omap_fmap {A B C} (f : B → option C) (g : A → B) (l : list A) :
  omap f (g <$> l) = omap (λ a, f (g a)) l.
Proof.
  induction l as [| a l IH]; csimpl; [done |]. by rewrite IH.
Qed.

(** The quick tier: the three calls are made, and the fulfilled fragments
    are merged in the order of the calls. *)
Lemma runQuickAnalysis_run (w : World) (s : State) :
  runQuickAnalysis w s
  = (Returns tt,
     {| res := absorb false (fulfilledOf w quickBatch) (res s);
        log := log s ++ (Invoke <$> quickBatch) |}).
Proof.
  unfold runQuickAnalysis, mbind, M_bind. rewrite start_run.
  rewrite forEach_allSettled, fold_mergeQuick. cbn [res log].
  by rewrite <- list_fmap_compose, omap_fmap.
Qed.

(** The deep tier: the quick tier, then the four calls of the deep batch,
    merged in the order of the calls, scores included. *)
Lemma runDeepAnalysis_run (w : World) (s : State) :
  runDeepAnalysis w s
  = (Returns tt,
     {| res := absorb true (fulfilledOf w deepBatch)
                 (absorb false (fulfilledOf w quickBatch) (res s));
        log := log s ++ (Invoke <$> quickBatch ++ deepBatch) |}).
Proof.
  unfold runDeepAnalysis, mbind, M_bind. rewrite runQuickAnalysis_run, start_run.
  rewrite forEach_allSettled, fold_mergeDeep. cbn [res log].
  rewrite <- list_fmap_compose, omap_fmap.
  by rewrite fmap_app, app_assoc.
Qed.

(** * Properties of [analyzePage] *)

(** ** What a computation may log *)

Section Logs.
Context (P : Event → Prop).

Lemma logs_nothing {A} (m : M A) : (∀ s, log (m s).2 = log s) → logs P m.
Proof. intros H s. exists []. by rewrite app_nil_r, H. Qed.

Lemma logs_mret {A} (a : A) : logs P (mret a).
Proof. by apply logs_nothing. Qed.

Lemma logs_throw {A} e : logs P (@throw A e).
Proof. by apply logs_nothing. Qed.

Lemma logs_lift {A} (o : outcome A) : logs P (lift o).
Proof. by apply logs_nothing. Qed.

Lemma logs_get : logs P get.
Proof. by apply logs_nothing. Qed.

Lemma logs_modify f : logs P (modify f).
Proof. by apply logs_nothing. Qed.

Lemma logs_forEach {A} (cb : A → AnalysisResult → AnalysisResult) arr :
  logs P (forEach cb arr).
Proof. by apply logs_nothing. Qed.

Lemma logs_await p : logs P (await p).
Proof. unfold await. destruct (result p); by apply logs_nothing. Qed.

Lemma logs_spread {A} v (member : Fragment → option (list A)) :
  logs P (spread v member).
Proof.
  unfold spread. destruct v as [v |]; [destruct (member v) |];
    by apply logs_nothing.
Qed.

Lemma logs_emit e : P e → logs P (emit e).
Proof. intros He s. exists [e]. split; [done |]. by constructor. Qed.

Lemma logs_bind {A B} (m : M A) (k : A → M B) :
  logs P m → (∀ a, logs P (k a)) → logs P (m ≫= k).
Proof.
  intros Hm Hk s. unfold mbind, M_bind.
  destruct (Hm s) as (evs1 & Hlog1 & HP1).
  destruct (m s) as [[a | e] s1]; simpl in *.
  - destruct (Hk a s1) as (evs2 & Hlog2 & HP2).
    exists (evs1 ++ evs2). split; [| by apply Forall_app].
    by rewrite Hlog2, Hlog1, app_assoc.
  - by exists evs1.
Qed.

Lemma logs_start batch : Forall P (Invoke <$> batch) → logs P (start batch).
Proof. intros HP s. rewrite start_run. simpl. eauto. Qed.
End Logs.

Ltac logs_step :=
  first
    [ apply logs_bind; [| intros ?]
    | apply logs_mret | apply logs_throw | apply logs_lift | apply logs_get
    | apply logs_modify | apply logs_forEach | apply logs_await
    | apply logs_spread
    | apply logs_emit; discriminate
    | apply logs_start; repeat constructor; discriminate ].

(** No tier runner closes the page it was given. *)
Lemma logs_dispatch (w : World) (ty : string) (sel : prop) :
  logs (λ e, e ≠ Close MainPage) (dispatch w ty sel).
Proof.
  unfold dispatch, runFullAnalysis, runElementAnalysis, runDeepAnalysis,
    runQuickAnalysis.
  repeat case_match; repeat logs_step.
Qed.

(** ** The summary is written by [calculateSummary] only *)

Lemma keeps_summary_same {A} (m : M A) :
  (∀ s, res (m s).2 = res s) → keeps_summary m.
Proof. intros H s. by rewrite H. Qed.

Lemma keeps_summary_modify f :
  (∀ r, summary (f r) = summary r) → keeps_summary (modify f).
Proof. intros H s. apply H. Qed.

Lemma keeps_summary_forEach {A} (cb : A → AnalysisResult → AnalysisResult) arr :
  (∀ x r, summary (cb x r) = summary r) → keeps_summary (forEach cb arr).
Proof.
  intros H s. unfold forEach, modify. simpl. generalize (res s).
  induction arr as [| [x |] arr IH]; intros r; simpl; [done | |].
  - by rewrite IH, H.
  - apply IH.
Qed.

Lemma keeps_summary_bind {A B} (m : M A) (k : A → M B) :
  keeps_summary m → (∀ a, keeps_summary (k a)) → keeps_summary (m ≫= k).
Proof.
  intros Hm Hk s. unfold mbind, M_bind. specialize (Hm s).
  destruct (m s) as [[a | e] s1]; simpl in *; [| done].
  by rewrite Hk.
Qed.

Lemma keeps_summary_start batch : keeps_summary (start batch).
Proof. intros s. by rewrite start_run. Qed.

Lemma keeps_summary_await p : keeps_summary (await p).
Proof. unfold await. by destruct (result p). Qed.

Lemma keeps_summary_spread {A} v (member : Fragment → option (list A)) :
  keeps_summary (spread v member).
Proof. unfold spread. destruct v as [v |]; [by destruct (member v) | done]. Qed.

Lemma summary_mergeQuick x r : summary (mergeQuick x r) = summary r.
Proof. by destruct x as [[v |] | e]. Qed.

Lemma summary_mergeDeep x r : summary (mergeDeep x r) = summary r.
Proof. by destruct x as [[v |] | e]. Qed.

Ltac keeps_summary_step :=
  first
    [ apply keeps_summary_bind; [| intros ?]
    | apply keeps_summary_start | apply keeps_summary_await
    | apply keeps_summary_spread
    | apply keeps_summary_forEach; first [apply summary_mergeQuick | apply summary_mergeDeep]
    | apply keeps_summary_modify; by intros []
    | apply keeps_summary_same; by intros [] ].

Lemma keeps_summary_dispatch (w : World) (ty : string) (sel : prop) :
  keeps_summary (dispatch w ty sel).
Proof.
  unfold dispatch, runFullAnalysis, runElementAnalysis, runDeepAnalysis,
    runQuickAnalysis.
  repeat case_match; repeat keeps_summary_step.
Qed.

(** ** The shape of every call *)

Lemma analyzePage_loaded (w : World) (url ty path : string) (sel : prop) :
  newPage w = Returns tt → goto w url = Returns tt → screenshot w url = Returns path →
  analyzePage w url ty sel
  = match dispatch w ty sel (loaded w url ty path) with
    | (Returns _, s) =>
        (Returns (set_analysisTime (elapsed w) (calculateSummary (res s))),
         log s ++ [Close MainPage])
    | (Throws e, s) =>
        (Returns (set_error (message e) (res s)), log s ++ [Close MainPage])
    end.
Proof.
  intros Hnew Hgoto Hshot. unfold analyzePage. rewrite Hnew.
  unfold try_catch_finally, mbind, M_bind, emit, lift, modify, get. simpl.
  rewrite Hgoto, Hshot. simpl. fold (loaded w url ty path).
  destruct (dispatch w ty sel (loaded w url ty path)) as [[[] | e] s]; done.
Qed.

(** Once the page is open the call returns a result, whatever happens, and
    the log is the opening of the page, events that do not close it, and its
    closing. *)
Lemma analyzePage_returns (w : World) (url ty : string) (sel : prop) :
  newPage w = Returns tt →
  ∃ r evs,
    analyzePage w url ty sel = (Returns r, Open MainPage :: evs ++ [Close MainPage])
    ∧ Forall (λ e, e ≠ Close MainPage) evs.
Proof.
  intros Hnew. unfold analyzePage. rewrite Hnew.
  unfold try_catch_finally, mbind, M_bind, emit, lift, modify, get. simpl.
  destruct (goto w url) as [[] | e]; simpl.
  2: { eexists _, [_]. split; [reflexivity |]. by repeat constructor. }
  destruct (screenshot w url) as [path | e]; simpl.
  2: { eexists _, [_; _]. split; [reflexivity |]. by repeat constructor. }
  destruct (logs_dispatch w ty sel (loaded w url ty path)) as (evs & Hlog & HP).
  fold (loaded w url ty path).
  destruct (dispatch w ty sel (loaded w url ty path)) as [[[] | e] s];
    simpl in *; rewrite Hlog; simpl;
    (eexists _, (_ :: _ :: evs); split; [reflexivity |]);
    by repeat constructor.
Qed.

(** Every result that [analyzePage] returns without [error] carries [NaN]
    as its overall score: the tier runners never touch the summary, so
    [calculateSummary] always finds the empty one. *)
Lemma analyzePage_score_is_NaN (w : World) (url ty : string) (sel : prop)
    (r : AnalysisResult) (evs : list Event) :
  analyzePage w url ty sel = (Returns r, evs) →
  error r = None →
  overallScore <$> summary r = Some NaN.
Proof.
  unfold analyzePage. destruct (newPage w) as [[] | e0] eqn:Hnew; [| done].
  unfold try_catch_finally, mbind, M_bind, emit, lift, modify, get. simpl.
  destruct (goto w url) as [[] | e1]; simpl; [| by intros [= <- _]].
  destruct (screenshot w url) as [path | e2]; simpl; [| by intros [= <- _]].
  fold (loaded w url ty path).
  pose proof (keeps_summary_dispatch w ty sel (loaded w url ty path)) as Hkeep.
  destruct (dispatch w ty sel (loaded w url ty path)) as [[[] | e3] s];
    simpl in *; [| by intros [= <- _]].
  intros [= <- _] _. simpl. f_equal.
  by apply calculateOverallScore_empty_summary.
Qed.

(** C5.  Once the page is open, [analyzePage] returns a result on every
    path, for every url and analysis type, and the page is closed exactly
    once, as the last event, whether the analysis succeeded or failed.  If
    navigation fails, the returned result carries the failure message in
    [error], has no issues, recommendations or screenshots, and only the
    opening, the navigation attempt and the closing were logged. *)
Theorem analyzePage_navigation_failure (w : World) (url ty : string) (sel : prop)
    (e : JsError) :
  newPage w = Returns tt →
  goto w url = Throws e →
  (∃ r,
     analyzePage w url ty sel
       = (Returns r, [Open MainPage; Goto MainPage url; Close MainPage])
     ∧ error r = Some (message e)
     ∧ issues r = [] ∧ recommendations r = [] ∧ screenshots r = []
     ∧ summary r = None)
  ∧ (∀ w' : World, newPage w' = Returns tt →
       ∃ r evs,
         analyzePage w' url ty sel
           = (Returns r, Open MainPage :: evs ++ [Close MainPage])
         ∧ Forall (λ ev, ev ≠ Close MainPage) evs).
Proof.
  intros Hnew Hgoto. split.
  - unfold analyzePage. rewrite Hnew.
    unfold try_catch_finally, mbind, M_bind, emit, lift, modify, get. simpl.
    rewrite Hgoto. simpl. eexists. split; [reflexivity |]. by repeat split.
  - intros w' Hnew'. by apply analyzePage_returns.
Qed.

Lemma analyzePage_navigation_failure_witness :
  ∃ r,
    analyzePage unreachableWorld "http://localhost:3000" "quick" None
      = (Returns r,
         [Open MainPage; Goto MainPage "http://localhost:3000"; Close MainPage])
    ∧ error r = Some "net::ERR_CONNECTION_REFUSED"
    ∧ issues r = [].
Proof.
  destruct (analyzePage_navigation_failure unreachableWorld
              "http://localhost:3000" "quick" None
              (Error "net::ERR_CONNECTION_REFUSED") eq_refl eq_refl)
    as [(r & Hrun & Herr & Hiss & _) _].
  exists r. by repeat split.
Defined.

(** ** Analysis types outside the four tiers *)

Lemma dispatch_unknown (w : World) (ty : string) (sel : prop) :
  ty ∉ ["quick"; "deep"; "element"; "full"] →
  dispatch w ty sel = mret tt.
Proof.
  intros Hty. unfold dispatch.
  destruct (String.eqb_spec ty "quick") as [-> | _]; [set_solver |].
  destruct (String.eqb_spec ty "deep") as [-> | _]; [set_solver |].
  destruct (String.eqb_spec ty "element") as [-> | _]; [set_solver |].
  destruct (String.eqb_spec ty "full") as [-> | _]; [set_solver |].
  done.
Qed.

(** C10.  For an analysis type that is none of quick, deep, element and
    full, on a page that loads and is captured, [analyzePage] returns
    without setting [error]: no analyzer is called (the log holds only the
    opening, the navigation, the screenshot and the closing), issues and
    recommendations are empty, and the summary is the one
    [calculateSummary] computes over the empty lists. *)
Theorem analyzePage_unknown_type (w : World) (url ty path : string) (sel : prop) :
  ty ∉ ["quick"; "deep"; "element"; "full"] →
  newPage w = Returns tt →
  goto w url = Returns tt →
  screenshot w url = Returns path →
  ∃ r,
    analyzePage w url ty sel
      = (Returns r,
         [Open MainPage; Goto MainPage url; Screenshot MainPage; Close MainPage])
    ∧ error r = None
    ∧ issues r = [] ∧ recommendations r = []
    ∧ summary r = summary (calculateSummary (res (loaded w url ty path)))
    ∧ summary r
      = Some {| totalIssues := 0; criticalIssues := 0; highIssues := 0;
                mediumIssues := 0; s_recommendations := 0;
                overallScore := NaN; estimatedFixTime := Minutes 0;
                priorityActions := []; quickWins := 0 |}.
Proof.
  intros Hty Hnew Hgoto Hshot.
  rewrite (analyzePage_loaded w url ty path sel Hnew Hgoto Hshot).
  rewrite dispatch_unknown by done. simpl.
  eexists. split; [reflexivity |]. by repeat split.
Qed.

Lemma analyzePage_unknown_type_witness :
  ∃ r,
    analyzePage calmWorld "http://localhost:3000" "batch" None
      = (Returns r,
         [Open MainPage; Goto MainPage "http://localhost:3000";
          Screenshot MainPage; Close MainPage])
    ∧ error r = None ∧ issues r = [].
Proof.
  assert (Hty : "batch" ∉ ["quick"; "deep"; "element"; "full"]).
  { apply (bool_decide_unpack _). vm_compute. exact I. }
  destruct (analyzePage_unknown_type calmWorld "http://localhost:3000" "batch"
              "shot.png" None Hty eq_refl eq_refl eq_refl)
    as (r & Hrun & Herr & Hiss & _).
  exists r. by repeat split.
Defined.

(** ** The mobile context of the full tier *)

(** C7.  When the navigation of the mobile page throws in the full tier,
    the error is caught by [analyzePage], which closes its own page; the
    mobile page and the mobile context, both opened, are never closed. *)
Theorem runFullAnalysis_leaks_mobile_context :
  ∃ r evs,
    analyzePage mobileOfflineWorld "http://localhost:3000" "full" None
      = (Returns r, evs)
    ∧ error r = Some "net::ERR_INTERNET_DISCONNECTED"
    ∧ evs = [Open MainPage; Goto MainPage "http://localhost:3000";
             Screenshot MainPage;
             Invoke quickScan; Invoke quickCheck; Invoke quickMetrics;
             Invoke fullAudit; Invoke comprehensiveAnalysis;
             Invoke detailedMetrics; Invoke responsivenessTest;
             Open MobileContext; Open MobilePage;
             Goto MobilePage "http://localhost:3000";
             Close MainPage]
    ∧ leaked MobileContext evs = true
    ∧ leaked MobilePage evs = true
    ∧ leaked MainPage evs = false.
Proof.
  eexists _, _. split; [vm_compute; reflexivity |]. by repeat split.
Qed.

(** On the path where nothing throws, both are closed. *)
Lemma runFullAnalysis_closes_when_nothing_throws :
  ∃ r evs,
    analyzePage calmWorld "http://localhost:3000" "full" None = (Returns r, evs)
    ∧ error r = None
    ∧ leaked MobileContext evs = false
    ∧ leaked MobilePage evs = false.
Proof.
  eexists _, _. split; [vm_compute; reflexivity |]. by repeat split.
Qed.

(** ** Worlds that differ only in their analyzer promises *)

Lemma analyzePage_ext (w w' : World) (url ty : string) (sel : prop) :
  newPage w' = newPage w → goto w' url = goto w url →
  screenshot w' url = screenshot w url →
  isoTime w' = isoTime w → startTime w' = startTime w → endTime w' = endTime w →
  (∀ s, dispatch w' ty sel s = dispatch w ty sel s) →
  analyzePage w' url ty sel = analyzePage w url ty sel.
Proof.
  intros Hnew Hgoto Hshot Hiso Hstart Hend Hd.
  unfold analyzePage, freshResult. rewrite Hnew, Hiso, Hstart, Hend.
  destruct (newPage w) as [[] | e]; [| done].
  unfold try_catch_finally, mbind, M_bind, emit, lift, modify, get. simpl.
  rewrite Hgoto. destruct (goto w url) as [[] | e]; [| done]. simpl.
  rewrite Hshot. destruct (screenshot w url) as [path | e]; [| done]. simpl.
  by rewrite Hd.
Qed.

Lemma fulfilledOf_ext (w w' : World) (batch : list EntryPoint) :
  (∀ a, valueOf (result (analyzer w' a)) = valueOf (result (analyzer w a))) →
  fulfilledOf w' batch = fulfilledOf w batch.
Proof.
  intros H. unfold fulfilledOf.
  induction batch as [| a batch IH]; csimpl; [done |]. by rewrite H, IH.
Qed.

Lemma dispatch_sameOutcomes (w w' : World) (ty : string) (sel : prop) (s : State) :
  sameOutcomes w w' → dispatch w' ty sel s = dispatch w ty sel s.
Proof.
  intros (_ & _ & _ & Hctx & Hpage & Hgoto & Hshot & _ & _ & _ & Hval & Hres).
  assert (Hel : result (analyzer w' elementAnalysis) = result (analyzer w elementAnalysis)).
  { apply Hres. apply (bool_decide_unpack _). vm_compute. exact I. }
  assert (Hec : result (analyzer w' elementCheck) = result (analyzer w elementCheck)).
  { apply Hres. apply (bool_decide_unpack _). vm_compute. exact I. }
  assert (Hmo : result (analyzer w' fullMobileAudit) = result (analyzer w fullMobileAudit)).
  { apply Hres. apply (bool_decide_unpack _). vm_compute. exact I. }
  unfold dispatch. repeat case_match; try done.
  - by rewrite !runQuickAnalysis_run, (fulfilledOf_ext w w').
  - by rewrite !runDeepAnalysis_run, !(fulfilledOf_ext w w').
  - unfold runElementAnalysis, mbind, M_bind, emit, await. cbn [res log].
    by rewrite Hel, Hec.
  - unfold runFullAnalysis, mbind, M_bind.
    rewrite !runDeepAnalysis_run, !(fulfilledOf_ext w w') by done.
    unfold emit, await, lift, get. cbn [res log].
    by rewrite Hctx, Hpage, Hgoto, Hshot, Hmo.
Qed.

Lemma analyzePage_sameOutcomes (w w' : World) (url ty : string) (sel : prop) :
  sameOutcomes w w' → analyzePage w' url ty sel = analyzePage w url ty sel.
Proof.
  intros Hsame.
  pose proof Hsame as (Hnew & Hgoto & Hshot & _ & _ & _ & _ & Hiso & Hst & Hen & _).
  apply analyzePage_ext; try done; try congruence.
  intros s. by apply dispatch_sameOutcomes.
Qed.

Lemma sameOutcomes_silenced (w : World) : sameOutcomes w (silenced w).
Proof.
  repeat split; try done.
  - intros a. simpl. destruct (inBatch a); [| done].
    unfold silence. destruct (result (analyzer w a)) eqn:E; simpl; by rewrite ?E.
  - intros a Ha. simpl. destruct a; try done; exfalso; apply Ha;
      apply (bool_decide_unpack _); vm_compute; exact I.
Qed.

Lemma sameOutcomes_retimed (t : EntryPoint → nat) (w : World) :
  sameOutcomes w (retimed t w).
Proof. by repeat split. Qed.

(** ** Rejected analyzers *)

Lemma fulfilledOf_app (w : World) (b1 b2 : list EntryPoint) :
  fulfilledOf w (b1 ++ b2) = fulfilledOf w b1 ++ fulfilledOf w b2.
Proof. unfold fulfilledOf. apply omap_app. Qed.

Lemma analyzePage_quick (w : World) (url path : string) (sel : prop) :
  newPage w = Returns tt → goto w url = Returns tt → screenshot w url = Returns path →
  analyzePage w url "quick" sel
  = (Returns (set_analysisTime (elapsed w)
       (calculateSummary
          (absorb false (fulfilledOf w quickBatch)
             (res (loaded w url "quick" path))))),
     log (loaded w url "quick" path) ++ (Invoke <$> quickBatch) ++ [Close MainPage]).
Proof.
  intros Hnew Hgoto Hshot.
  rewrite (analyzePage_loaded w url "quick" path sel Hnew Hgoto Hshot).
  change (dispatch w "quick" sel) with (runQuickAnalysis w).
  rewrite runQuickAnalysis_run. cbn [res log]. by rewrite <- app_assoc.
Qed.

Lemma analyzePage_deep (w : World) (url path : string) (sel : prop) :
  newPage w = Returns tt → goto w url = Returns tt → screenshot w url = Returns path →
  analyzePage w url "deep" sel
  = (Returns (set_analysisTime (elapsed w)
       (calculateSummary
          (absorb true (fulfilledOf w deepBatch)
             (absorb false (fulfilledOf w quickBatch)
                (res (loaded w url "deep" path)))))),
     log (loaded w url "deep" path) ++ (Invoke <$> quickBatch ++ deepBatch)
       ++ [Close MainPage]).
Proof.
  intros Hnew Hgoto Hshot.
  rewrite (analyzePage_loaded w url "deep" path sel Hnew Hgoto Hshot).
  change (dispatch w "deep" sel) with (runDeepAnalysis w).
  rewrite runDeepAnalysis_run. cbn [res log]. by rewrite <- app_assoc.
Qed.

(** C1 (as the code has it).  On a page that loads and is captured, a
    rejection inside a parallel batch is dropped without a trace: for every
    analysis type the call returns exactly what it returns when each
    rejected batch promise is instead fulfilled with [undefined].  In the
    quick and deep tiers the result holds the issues, recommendations and
    metrics of the fulfilled analyzers, in batch order, and nothing else: no
    issue is added for a rejected analyzer, [error] stays unset and
    [totalIssues] counts the issues of the fulfilled fragments only. *)
Theorem rejected_analyzer_is_dropped (w : World) (url path : string) (sel : prop) :
  newPage w = Returns tt →
  goto w url = Returns tt →
  screenshot w url = Returns path →
  (∀ ty, analyzePage (silenced w) url ty sel = analyzePage w url ty sel)
  ∧ (∃ r evs,
       analyzePage w url "quick" sel = (Returns r, evs)
       ∧ issues r = concat (issuesOf <$> fulfilledOf w quickBatch)
       ∧ recommendations r = concat (recommendationsOf <$> fulfilledOf w quickBatch)
       ∧ metrics r = foldl Object_assign ∅ (metricsOf <$> fulfilledOf w quickBatch)
       ∧ error r = None
       ∧ totalIssues <$> summary r
         = Some (length (concat (issuesOf <$> fulfilledOf w quickBatch))))
  ∧ (∃ r evs,
       analyzePage w url "deep" sel = (Returns r, evs)
       ∧ issues r = concat (issuesOf <$> fulfilledOf w (quickBatch ++ deepBatch))
       ∧ recommendations r
         = concat (recommendationsOf <$> fulfilledOf w (quickBatch ++ deepBatch))
       ∧ metrics r
         = foldl Object_assign ∅ (metricsOf <$> fulfilledOf w (quickBatch ++ deepBatch))
       ∧ error r = None
       ∧ totalIssues <$> summary r
         = Some (length (concat (issuesOf <$> fulfilledOf w (quickBatch ++ deepBatch))))).
Proof.
  intros Hnew Hgoto Hshot. split; [| split].
  - intros ty. apply analyzePage_sameOutcomes, sameOutcomes_silenced.
  - rewrite (analyzePage_quick w url path sel Hnew Hgoto Hshot).
    eexists _, _. split; [reflexivity |]. by repeat split.
  - rewrite (analyzePage_deep w url path sel Hnew Hgoto Hshot).
    eexists _, _. split; [reflexivity |].
    rewrite fulfilledOf_app, !fmap_app, !concat_app, foldl_app.
    by repeat split.
Qed.

Lemma rejected_analyzer_is_dropped_witness :
  ∃ r evs,
    analyzePage flakyWorld "http://localhost:3000" "quick" None = (Returns r, evs)
    ∧ issues r = concat (issuesOf <$> fulfilledOf flakyWorld quickBatch)
    ∧ error r = None.
Proof.
  destruct (rejected_analyzer_is_dropped flakyWorld "http://localhost:3000"
              "shot.png" None eq_refl eq_refl eq_refl)
    as (_ & (r & evs & Hrun & Hiss & _ & _ & Herr & _) & _).
  exists r, evs. by repeat split.
Defined.

(** C1, as stated.  With the scan rejecting and the two other quick
    analyzers fulfilling, the result holds the one issue of the
    accessibility check and no other: there is no issue of type [system],
    and the total is 1. *)
Lemma rejected_analyzer_adds_no_issue :
  ∃ r evs,
    analyzePage flakyWorld "http://localhost:3000" "quick" None = (Returns r, evs)
    ∧ issues r = [missingAltText]
    ∧ (∀ i, i ∈ issues r → type i ≠ Some "system")
    ∧ error r = None
    ∧ totalIssues <$> summary r = Some 1.
Proof.
  eexists _, _. split; [vm_compute; reflexivity |].
  split; [reflexivity |]. split; [| by split].
  intros i Hi. cbn in Hi. apply list_elem_of_singleton in Hi as ->. discriminate.
Qed.

(** ** Merge order and overwriting *)

(** C6 (as the code has it).  Each batch merges the fragments of its
    fulfilled analyzers in the order in which the batch lists their calls
    (scan, check, metrics for the quick batch; audit, visual analysis,
    detailed metrics, responsiveness test for the deep batch), whenever
    their promises settle.  Issues and recommendations are appended,
    keeping every entry.  For metrics, the value of a key is the one written
    by the last fragment, in that order, that has the key, else the value it
    had before.  Scores are merged in the same way by the deep batch only:
    the quick batch leaves [scores] as it was.  Changing the settling times
    of the promises changes nothing in what [analyzePage] returns. *)
Theorem batch_merge_in_registration_order (w : World) (s : State) :
  (∃ s1,
     runQuickAnalysis w s = (Returns tt, s1)
     ∧ issues (res s1)
       = issues (res s) ++ concat (issuesOf <$> fulfilledOf w quickBatch)
     ∧ recommendations (res s1)
       = recommendations (res s)
           ++ concat (recommendationsOf <$> fulfilledOf w quickBatch)
     ∧ (∀ k, metrics (res s1) !! k
             = match lastWrite k (metricsOf <$> fulfilledOf w quickBatch) with
               | Some v => Some v
               | None => metrics (res s) !! k
               end)
     ∧ scores (res s1) = scores (res s))
  ∧ (∃ s2,
       runDeepAnalysis w s = (Returns tt, s2)
       ∧ issues (res s2)
         = issues (res s)
             ++ concat (issuesOf <$> fulfilledOf w (quickBatch ++ deepBatch))
       ∧ recommendations (res s2)
         = recommendations (res s)
             ++ concat (recommendationsOf <$> fulfilledOf w (quickBatch ++ deepBatch))
       ∧ (∀ k, metrics (res s2) !! k
               = match lastWrite k
                         (metricsOf <$> fulfilledOf w (quickBatch ++ deepBatch)) with
                 | Some v => Some v
                 | None => metrics (res s) !! k
                 end)
       ∧ (∀ k, scores (res s2) !! k
               = match lastWrite k (scoresOf <$> fulfilledOf w deepBatch) with
                 | Some v => Some v
                 | None => scores (res s) !! k
                 end))
  ∧ (∀ (t : EntryPoint → nat) (url ty : string) (sel : prop),
       analyzePage (retimed t w) url ty sel = analyzePage w url ty sel).
Proof.
  split; [| split].
  - rewrite runQuickAnalysis_run. eexists. split; [reflexivity |].
    cbn [res absorb issues recommendations metrics scores].
    repeat split. intros k. apply lookup_foldl_Object_assign.
  - rewrite runDeepAnalysis_run. eexists. split; [reflexivity |].
    cbn [res absorb issues recommendations metrics scores].
    rewrite fulfilledOf_app, !fmap_app, !concat_app, !app_assoc.
    repeat split.
    + intros k. rewrite <- foldl_app. apply lookup_foldl_Object_assign.
    + intros k. apply lookup_foldl_Object_assign.
  - intros t url ty sel. apply analyzePage_sameOutcomes, sameOutcomes_retimed.
Qed.

(** C6, as stated.  A score reported by an analyzer of the quick batch is
    not merged: the metric of the same fragment arrives in the result, the
    score does not, in the quick tier and in the deep tier alike. *)
Lemma quick_batch_drops_scores :
  (∃ r evs,
     analyzePage scoringScanWorld "http://localhost:3000" "quick" None
       = (Returns r, evs)
     ∧ metrics r !! "consoleErrors" = Some (VNum 0)
     ∧ scores r !! "bugScore" = None
     ∧ scores r = ∅)
  ∧ (∃ r evs,
       analyzePage scoringScanWorld "http://localhost:3000" "deep" None
         = (Returns r, evs)
       ∧ scores r !! "bugScore" = None).
Proof.
  split; eexists _, _; (split; [vm_compute; reflexivity |]); by repeat split.
Qed.

(** * Further properties *)

(** ** The constructor's configuration *)

Lemma cfg_get_absent (config : gmap string cfgval) (k : string) (d : cfgval) :
  config !! k = None → cfg_or (cfg_get config k) d = d.
Proof. intros H. unfold cfg_get. by rewrite H. Qed.

(** X1.  A key the caller passed keeps the caller's value in [this.config],
    whatever that value is (0, the empty string, [undefined]); the defaults
    are used for the absent keys only.  Without argument the configuration
    is the six defaults. *)
Theorem orchestratorConfig_lookup (config : gmap string cfgval) (k : string) :
  orchestratorConfig (Some config) !! k
  = match config !! k with
    | Some v => Some v
    | None => configDefaults !! k
    end
  ∧ orchestratorConfig None = configDefaults.
Proof.
  split; [| by vm_compute].
  unfold orchestratorConfig, configDefaults.
  change (default ∅ (Some config)) with config. cbv zeta.
  rewrite lookup_union. destruct (config !! k) as [v |] eqn:Hk.
  - match goal with |- Some v ∪ ?x = _ => destruct x; reflexivity end.
  - rewrite (left_id None _).
    repeat match goal with
           | |- context [<[?key := _]> _ !! k] =>
               destruct (decide (key = k)) as [<- | Hne];
               [ by rewrite !lookup_insert_eq, cfg_get_absent
               | rewrite !(lookup_insert_ne _ key k) by done; clear Hne ]
           end.
    done.
Qed.

(** ** [sanitizeFilename] *)

Lemma length_mapChars f s : String.length (mapChars f s) = String.length s.
Proof. induction s as [| c s IH]; simpl; [done | by rewrite IH]. Qed.

Lemma mapChars_mapChars f g s : mapChars f (mapChars g s) = mapChars (λ c, f (g c)) s.
Proof. induction s as [| c s IH]; simpl; [done | by rewrite IH]. Qed.

Lemma mapChars_ext_Forall (f g : ascii → ascii) s :
  Forall (λ c, f c = g c) (list_ascii_of_string s) → mapChars f s = mapChars g s.
Proof.
  induction s as [| c s IH]; simpl; [done |].
  intros H. inversion H as [| ? ? Hc Hs]; subst. by rewrite Hc, IH.
Qed.

Lemma list_ascii_of_mapChars f s :
  list_ascii_of_string (mapChars f s) = f <$> list_ascii_of_string s.
Proof. induction s as [| c s IH]; simpl; [done | by rewrite IH]. Qed.

Lemma sanitize_char_name c :
  isNameChar (lowerChar (if isAlnum c then c else "_"%char)) = true.
Proof. destruct c as [[] [] [] [] [] [] [] []]; reflexivity. Qed.

Lemma sanitize_char_fixed c :
  isNameChar c = true → lowerChar (if isAlnum c then c else "_"%char) = c.
Proof. destruct c as [[] [] [] [] [] [] [] []]; (reflexivity || discriminate). Qed.

(** X2.  A sanitized name has as many characters as the url and consists
    of lower-case letters, digits and underscores only. *)
Theorem sanitizeFilename_alphabet (url : string) :
  String.length (sanitizeFilename url) = String.length url
  ∧ Forall (λ c, isNameChar c = true) (list_ascii_of_string (sanitizeFilename url)).
Proof.
  unfold sanitizeFilename, toLowerCase, replaceNonAlnum. split.
  - by rewrite !length_mapChars.
  - rewrite mapChars_mapChars, list_ascii_of_mapChars.
    apply Forall_fmap, Forall_true. intros c. apply sanitize_char_name.
Qed.

(** X3.  Sanitizing is idempotent, and a string already made of lower-case
    letters, digits and underscores is left as it is. *)
Theorem sanitizeFilename_idempotent (url : string) :
  sanitizeFilename (sanitizeFilename url) = sanitizeFilename url
  ∧ (Forall (λ c, isNameChar c = true) (list_ascii_of_string url) →
     sanitizeFilename url = url).
Proof.
  assert (Hfix : ∀ s, Forall (λ c, isNameChar c = true) (list_ascii_of_string s) →
                      sanitizeFilename s = s).
  { intros s Hs. unfold sanitizeFilename, toLowerCase, replaceNonAlnum.
    rewrite mapChars_mapChars.
    transitivity (mapChars (λ c, c) s).
    - apply mapChars_ext_Forall. eapply Forall_impl; [exact Hs |].
      intros c Hc. by apply sanitize_char_fixed.
    - clear Hs. induction s as [| c s IH]; simpl; [done | by rewrite IH]. }
  split; [| apply Hfix].
  apply Hfix. apply sanitizeFilename_alphabet.
Qed.

Lemma sanitizeFilename_idempotent_witness :
  sanitizeFilename "report_2025" = "report_2025".
Proof.
  apply (proj2 (sanitizeFilename_idempotent "report_2025")).
  repeat constructor.
Defined.

(** ** The summary block *)

(** X4.  In a summary [calculateSummary] has stored, the number of priority
    actions is the smaller of 3 and [criticalIssues], the quick wins are at
    most the recommendations, and [totalIssues] and [recommendations] are
    the lengths of the two lists. *)
Theorem summary_counts_agree (r : AnalysisResult) :
  ∃ s, summary (calculateSummary r) = Some s
    ∧ length (priorityActions s) = min 3 (criticalIssues s)
    ∧ quickWins s ≤ s_recommendations s
    ∧ totalIssues s = length (issues r)
    ∧ s_recommendations s = length (recommendations r).
Proof.
  eexists. split; [reflexivity |].
  cbn [priorityActions criticalIssues quickWins s_recommendations totalIssues].
  split; [| split; [apply filter_length_le_total | done]].
  unfold getPriorityActions, slice0. rewrite length_map, length_take. done.
Qed.

(** X5.  From the second run on, [calculateSummary] changes nothing: a
    third run returns the result of the second, and the score the second
    run stores is the clamped formula over the counts of the current
    issues. *)
Theorem calculateSummary_stable_after_two (r : AnalysisResult) :
  calculateSummary (calculateSummary (calculateSummary r))
  = calculateSummary (calculateSummary r)
  ∧ overallScore <$> summary (calculateSummary (calculateSummary r))
    = Some (Num (Z.max 0
         (100 - Z.of_nat (length (List.filter isCritical (issues r))) * 20
              - Z.of_nat (length (List.filter isHigh (issues r))) * 10
              - Z.of_nat (length (List.filter isMedium (issues r))) * 5))).
Proof. split; reflexivity. Qed.

(** ** Estimated fix time *)

Lemma timeEstimates_inherited (key : string) :
  key ∈ objectPrototypeNames → timeEstimates key = Inherited.
Proof.
  unfold objectPrototypeNames. rewrite !elem_of_cons, elem_of_nil.
  intros H. repeat (destruct H as [-> | H]; [reflexivity |]). done.
Qed.

Lemma fold_addEstimate_Text (l : list Issue) : fold_left addEstimate l Text = Text.
Proof. induction l as [| i l IH]; simpl; [done | apply IH]. Qed.

Lemma estimateFixTime_Text_iff (l : list Issue) :
  estimateFixTime l = Text
  ↔ Exists (λ i, costLabel i ∈ objectPrototypeNames) l.
Proof.
  split.
  - intros HText.
    destruct (decide (Exists (λ i, costLabel i ∈ objectPrototypeNames) l))
      as [| Hno]; [done |].
    exfalso. apply not_Exists_Forall in Hno. 2: apply _.
    unfold estimateFixTime in HText.
    by rewrite (fold_addEstimate l 0 Hno) in HText.
  - intros HEx. unfold estimateFixTime. generalize 0%Z.
    induction HEx as [i l Hi | i l _ IH]; intros t; cbn [fold_left].
    + unfold addEstimate at 2. rewrite effectiveSeverity_costLabel.
      rewrite (timeEstimates_inherited _ Hi). apply fold_addEstimate_Text.
    + destruct (addEstimate (Minutes t) i) as [t' |]; [apply IH |].
      apply fold_addEstimate_Text.
Qed.

(** X6.  The [estimatedFixTime] that [calculateSummary] stores stops being
    a number exactly when some issue is costed under a name that every
    object inherits; one such issue is enough, wherever it stands in the
    list. *)
Theorem estimatedFixTime_Text_iff (r : AnalysisResult) :
  ∃ s, summary (calculateSummary r) = Some s
    ∧ (estimatedFixTime s = Text
       ↔ Exists (λ i, costLabel i ∈ objectPrototypeNames) (issues r)).
Proof.
  eexists. split; [reflexivity |]. cbn [estimatedFixTime].
  apply estimateFixTime_Text_iff.
Qed.

(** ** What every call of [analyzePage] returns *)

Lemma keeps_envelope_same {A} (m : M A) :
  (∀ s, res (m s).2 = res s) → keeps_envelope m.
Proof. intros H s. by rewrite H. Qed.

Lemma keeps_envelope_modify f :
  (∀ r, envelope (f r) = envelope r) → keeps_envelope (modify f).
Proof. intros H s. apply H. Qed.

Lemma keeps_envelope_forEach {A} (cb : A → AnalysisResult → AnalysisResult) arr :
  (∀ x r, envelope (cb x r) = envelope r) → keeps_envelope (forEach cb arr).
Proof.
  intros H s. unfold forEach, modify. simpl. generalize (res s).
  induction arr as [| [x |] arr IH]; intros r; simpl; [done | |].
  - by rewrite IH, H.
  - apply IH.
Qed.

Lemma keeps_envelope_bind {A B} (m : M A) (k : A → M B) :
  keeps_envelope m → (∀ a, keeps_envelope (k a)) → keeps_envelope (m ≫= k).
Proof.
  intros Hm Hk s. unfold mbind, M_bind. specialize (Hm s).
  destruct (m s) as [[a | e] s1]; simpl in *; [| done].
  by rewrite Hk.
Qed.

Lemma keeps_envelope_start batch : keeps_envelope (start batch).
Proof. intros s. by rewrite start_run. Qed.

Lemma keeps_envelope_await p : keeps_envelope (await p).
Proof. unfold await. by destruct (result p). Qed.

Lemma keeps_envelope_spread {A} v (member : Fragment → option (list A)) :
  keeps_envelope (spread v member).
Proof. unfold spread. destruct v as [v |]; [by destruct (member v) | done]. Qed.

Lemma envelope_mergeQuick x r : envelope (mergeQuick x r) = envelope r.
Proof. by destruct x as [[v |] | e]. Qed.

Lemma envelope_mergeDeep x r : envelope (mergeDeep x r) = envelope r.
Proof. by destruct x as [[v |] | e]. Qed.

Ltac keeps_envelope_step :=
  first
    [ apply keeps_envelope_bind; [| intros ?]
    | apply keeps_envelope_start | apply keeps_envelope_await
    | apply keeps_envelope_spread
    | apply keeps_envelope_forEach;
        first [apply envelope_mergeQuick | apply envelope_mergeDeep]
    | apply keeps_envelope_modify; by intros []
    | apply keeps_envelope_same; by intros [] ].

Lemma keeps_envelope_dispatch (w : World) (ty : string) (sel : prop) :
  keeps_envelope (dispatch w ty sel).
Proof.
  unfold dispatch, runFullAnalysis, runElementAnalysis, runDeepAnalysis,
    runQuickAnalysis.
  repeat case_match; repeat keeps_envelope_step.
Qed.

Lemma analyzePage_goto_throws (w : World) (url ty : string) (sel : prop) (e : JsError) :
  newPage w = Returns tt → goto w url = Throws e →
  analyzePage w url ty sel
  = (Returns (set_error (message e) (freshResult w url ty)),
     [Open MainPage; Goto MainPage url; Close MainPage]).
Proof.
  intros Hnew Hgoto. unfold analyzePage. rewrite Hnew.
  unfold try_catch_finally, mbind, M_bind, emit, lift, modify, get. simpl.
  by rewrite Hgoto.
Qed.

Lemma analyzePage_screenshot_throws (w : World) (url ty : string) (sel : prop)
    (e : JsError) :
  newPage w = Returns tt → goto w url = Returns tt → screenshot w url = Throws e →
  analyzePage w url ty sel
  = (Returns (set_error (message e) (freshResult w url ty)),
     [Open MainPage; Goto MainPage url; Screenshot MainPage; Close MainPage]).
Proof.
  intros Hnew Hgoto Hshot. unfold analyzePage. rewrite Hnew.
  unfold try_catch_finally, mbind, M_bind, emit, lift, modify, get. simpl.
  by rewrite Hgoto, Hshot.
Qed.

(** X7.  Once the page is open, the returned result carries the url and
    the analysis type of the call, and it is of one of two kinds.  Without
    [error]: the summary is present, [totalIssues] and [recommendations] are
    the lengths of the two lists, and [analysisTime] is set.  With [error]:
    the summary is still the empty object and [analysisTime] is not set. *)
Theorem analyzePage_result_kinds (w : World) (u ty : string) (sel : prop) :
  newPage w = Returns tt →
  ∃ r evs,
    analyzePage w u ty sel = (Returns r, evs)
    ∧ url r = u ∧ analysisType r = ty
    ∧ (error r = None →
         ∃ s, summary r = Some s
           ∧ totalIssues s = length (issues r)
           ∧ s_recommendations s = length (recommendations r)
           ∧ is_Some (analysisTime r))
    ∧ (error r ≠ None → summary r = None ∧ analysisTime r = None).
Proof.
  intros Hnew.
  destruct (goto w u) as [[] | e1] eqn:Hgoto.
  2: { rewrite (analyzePage_goto_throws w u ty sel e1 Hnew Hgoto).
       eexists _, _. split; [reflexivity |]. by repeat split. }
  destruct (screenshot w u) as [path | e2] eqn:Hshot.
  2: { rewrite (analyzePage_screenshot_throws w u ty sel e2 Hnew Hgoto Hshot).
       eexists _, _. split; [reflexivity |]. by repeat split. }
  rewrite (analyzePage_loaded w u ty path sel Hnew Hgoto Hshot).
  pose proof (keeps_envelope_dispatch w ty sel (loaded w u ty path)) as Hkeep.
  destruct (dispatch w ty sel (loaded w u ty path)) as [[[] | e3] s];
    simpl in Hkeep; injection Hkeep as Hu Hty _ Hsum Htime Herr;
    eexists _, _; (split; [reflexivity |]); simpl.
  - split; [done |]. split; [done |]. split.
    + intros _. eexists. split; [reflexivity |]. by repeat split.
    + intros H. by rewrite Herr in H.
  - split; [done |]. split; [done |]. split; [done |]. by intros _.
Qed.

Lemma analyzePage_result_kinds_witness :
  ∃ r evs,
    analyzePage unreachableWorld "http://localhost:3000" "deep" None = (Returns r, evs)
    ∧ url r = "http://localhost:3000" ∧ analysisType r = "deep".
Proof.
  destruct (analyzePage_result_kinds unreachableWorld "http://localhost:3000"
              "deep" None eq_refl) as (r & evs & Hrun & Hu & Hty & _).
  by exists r, evs.
Defined.

(** ** Next steps *)

Lemma fix_step_not_greatJob x y : "🚨 Fix " +:+ x +:+ y ≠ greatJob.
Proof. intros H. vm_compute in H. discriminate. Qed.

Lemma address_step_not_greatJob x y : "🔴 Address " +:+ x +:+ y ≠ greatJob.
Proof. intros H. vm_compute in H. discriminate. Qed.

Lemma implement_step_not_greatJob x y : "⚡ Implement " +:+ x +:+ y ≠ greatJob.
Proof. intros H. vm_compute in H. discriminate. Qed.

(** X8.  For a result [calculateSummary] has finalized, the next steps are
    at most three.  The closing "Great job" step is there exactly when the
    result has no issue, and then the only other step there can be is the
    one about quick wins. *)
Theorem generateNextSteps_finalized (r : AnalysisResult) :
  length (generateNextSteps (calculateSummary r)) ≤ 3
  ∧ (issues r = [] →
       generateNextSteps (calculateSummary r) = [greatJob]
       ∨ ∃ q, 0 < q
          ∧ q = length (List.filter isQuickWin (recommendations r))
          ∧ generateNextSteps (calculateSummary r)
            = ["⚡ Implement " +:+ pretty q +:+ " quick wins for easy improvements";
               greatJob])
  ∧ (issues r ≠ [] → greatJob ∉ generateNextSteps (calculateSummary r)).
Proof.
  unfold generateNextSteps, summary_field.
  cbn [calculateSummary set_summary summary issues fmap option_fmap option_map
       criticalIssues highIssues quickWins showCount].
  destruct (issues r) as [| i l] eqn:Hi.
  - cbn [List.filter length positive Nat.ltb Nat.leb Nat.eqb app].
    destruct (length (List.filter isQuickWin (recommendations r))) as [| q] eqn:Hq.
    + cbn. split; [lia |]. split; [by left | done].
    + cbn [positive Nat.ltb Nat.leb app]. split; [simpl; lia |].
      split; [| done]. intros _. right. exists (S q). repeat split. lia.
  - cbn [length Nat.eqb].
    split; [| split; [done |]].
    + repeat case_match; simpl; lia.
    + intros _ Hin.
      repeat case_match; cbn [app] in Hin;
        repeat (apply elem_of_cons in Hin as [Hin | Hin];
                [ symmetry in Hin;
                  first [ by apply fix_step_not_greatJob in Hin
                        | by apply address_step_not_greatJob in Hin
                        | by apply implement_step_not_greatJob in Hin ] |]);
        by apply elem_of_nil in Hin.
Qed.

(** X9.  When navigation fails, the result [analyzePage] returns gets the
    single next step "Great job! No major issues found." *)
Theorem generateNextSteps_after_navigation_failure (w : World) (u ty : string)
    (sel : prop) (e : JsError) :
  newPage w = Returns tt →
  goto w u = Throws e →
  ∃ r evs,
    analyzePage w u ty sel = (Returns r, evs)
    ∧ error r = Some (message e)
    ∧ generateNextSteps r = [greatJob].
Proof.
  intros Hnew Hgoto. rewrite (analyzePage_goto_throws w u ty sel e Hnew Hgoto).
  eexists _, _. split; [reflexivity |]. by split.
Qed.

Lemma generateNextSteps_after_navigation_failure_witness :
  ∃ r evs,
    analyzePage unreachableWorld "http://localhost:3000" "quick" None = (Returns r, evs)
    ∧ error r = Some "net::ERR_CONNECTION_REFUSED"
    ∧ generateNextSteps r = [greatJob].
Proof.
  exact (generateNextSteps_after_navigation_failure unreachableWorld
           "http://localhost:3000" "quick" None
           (Error "net::ERR_CONNECTION_REFUSED") eq_refl eq_refl).
Defined.

(** ** The element tier *)

Lemma analyzePage_element (w : World) (u path : string) (sel : prop) :
  newPage w = Returns tt → goto w u = Returns tt → screenshot w u = Returns path →
  analyzePage w u "element" sel
  = match runElementAnalysis w sel (loaded w u "element" path) with
    | (Returns _, s) =>
        (Returns (set_analysisTime (elapsed w) (calculateSummary (res s))),
         log s ++ [Close MainPage])
    | (Throws e, s) =>
        (Returns (set_error (message e) (res s)), log s ++ [Close MainPage])
    end.
Proof. intros Hnew Hgoto Hshot. by rewrite (analyzePage_loaded w u "element" path sel). Qed.

(** X10.  In the element tier a rejected analyzer is not dropped: its
    message becomes [error] and no summary is computed.  When the visual
    analysis rejects, the accessibility check is never called; when the
    accessibility check rejects, the result has no issue and no
    recommendation, whatever the visual analysis had found. *)
Theorem element_tier_rejection (w : World) (u path : string) (sel : prop)
    (e : JsError) :
  newPage w = Returns tt → goto w u = Returns tt → screenshot w u = Returns path →
  (result (analyzer w elementAnalysis) = Rejected e →
     ∃ r,
       analyzePage w u "element" sel
         = (Returns r,
            [Open MainPage; Goto MainPage u; Screenshot MainPage;
             Invoke elementAnalysis; Close MainPage])
       ∧ error r = Some (message e) ∧ summary r = None
       ∧ issues r = [] ∧ recommendations r = [])
  ∧ (∀ v, result (analyzer w elementAnalysis) = Fulfilled v →
          result (analyzer w elementCheck) = Rejected e →
     ∃ r,
       analyzePage w u "element" sel
         = (Returns r,
            [Open MainPage; Goto MainPage u; Screenshot MainPage;
             Invoke elementAnalysis; Invoke elementCheck; Close MainPage])
       ∧ error r = Some (message e) ∧ summary r = None
       ∧ issues r = [] ∧ recommendations r = []).
Proof.
  intros Hnew Hgoto Hshot.
  rewrite (analyzePage_element w u path sel Hnew Hgoto Hshot).
  unfold runElementAnalysis, mbind, M_bind, emit, await. cbn [res log loaded].
  split.
  - intros ->. unfold throw. eexists. split; [reflexivity |]. by repeat split.
  - intros v -> ->. unfold mret, M_ret, throw. cbn.
    eexists. split; [reflexivity |]. by repeat split.
Qed.

Lemma element_tier_rejection_witness :
  ∃ r evs,
    analyzePage elementCheckFailsWorld "http://localhost:3000" "element" (Some "button")
      = (Returns r, evs)
    ∧ error r = Some "Execution context was destroyed"
    ∧ issues r = [].
Proof.
  destruct (element_tier_rejection elementCheckFailsWorld "http://localhost:3000"
              "shot.png" (Some "button") (Error "Execution context was destroyed")
              eq_refl eq_refl eq_refl) as [_ H].
  destruct (H _ eq_refl eq_refl) as (r & Hrun & Herr & _ & Hiss & _).
  exists r. eexists. split; [exact Hrun |]. by split.
Defined.

(** X11.  When both element analyzers fulfil with an [issues] and a
    [recommendations] array, the result holds the issues of the visual
    analysis followed by those of the accessibility check, and likewise the
    recommendations; metrics and scores of the two fragments are not
    merged. *)
Theorem element_tier_success (w : World) (u path : string) (sel : prop)
    (fv fa : Fragment) (ei ai : list Issue) (er ar : list Recommendation) :
  newPage w = Returns tt → goto w u = Returns tt → screenshot w u = Returns path →
  elementFragments w fv fa ei ai er ar →
  ∃ r,
    analyzePage w u "element" sel
      = (Returns r,
         [Open MainPage; Goto MainPage u; Screenshot MainPage;
          Invoke elementAnalysis; Invoke elementCheck; Close MainPage])
    ∧ issues r = ei ++ ai
    ∧ recommendations r = er ++ ar
    ∧ metrics r = ∅ ∧ scores r = ∅
    ∧ error r = None.
Proof.
  intros Hnew Hgoto Hshot (Hv & Ha & Hei & Her & Hai & Har).
  rewrite (analyzePage_element w u path sel Hnew Hgoto Hshot).
  unfold runElementAnalysis, mbind, M_bind, emit, await. cbn [res log loaded].
  rewrite Hv, Ha. unfold mret, M_ret, spread, modify. cbn.
  rewrite Hei, Hai. cbn. rewrite Her, Har. cbn.
  eexists. split; [reflexivity |]. by repeat split.
Qed.

Lemma element_tier_success_witness :
  ∃ r evs,
    analyzePage elementWorld "http://localhost:3000" "element" None = (Returns r, evs)
    ∧ issues r = [missingAltText; issueWith (Some "high") (Some "high")]
    ∧ metrics r = ∅.
Proof.
  destruct (element_tier_success elementWorld "http://localhost:3000" "shot.png"
              None _ _ _ _ _ _ eq_refl eq_refl eq_refl
              (conj eq_refl (conj eq_refl (conj eq_refl
                 (conj eq_refl (conj eq_refl eq_refl))))))
    as (r & Hrun & Hiss & _ & Hmet & _).
  exists r. eexists. split; [exact Hrun |]. by split.
Defined.

(** ** The full tier *)

Lemma analyzePage_full (w : World) (u path : string) (sel : prop) :
  newPage w = Returns tt → goto w u = Returns tt → screenshot w u = Returns path →
  analyzePage w u "full" sel
  = match runFullAnalysis w (loaded w u "full" path) with
    | (Returns _, s) =>
        (Returns (set_analysisTime (elapsed w) (calculateSummary (res s))),
         log s ++ [Close MainPage])
    | (Throws e, s) =>
        (Returns (set_error (message e) (res s)), log s ++ [Close MainPage])
    end.
Proof. intros Hnew Hgoto Hshot. by rewrite (analyzePage_loaded w u "full" path sel). Qed.

(** X12.  In the full tier the mobile context stays open exactly when it
    was obtained and the call ends with [error] set; likewise the mobile
    page.  The page of the call itself is never left open. *)
Theorem full_tier_mobile_leak (w : World) (u path : string) (sel : prop) :
  newPage w = Returns tt → goto w u = Returns tt → screenshot w u = Returns path →
  ∃ r evs,
    analyzePage w u "full" sel = (Returns r, evs)
    ∧ (leaked MobileContext evs = true
       ↔ newContext w = Returns tt ∧ error r ≠ None)
    ∧ (leaked MobilePage evs = true
       ↔ newContext w = Returns tt ∧ mobileNewPage w = Returns tt ∧ error r ≠ None)
    ∧ leaked MainPage evs = false.
Proof.
  intros Hnew Hgoto Hshot.
  rewrite (analyzePage_full w u path sel Hnew Hgoto Hshot).
  unfold runFullAnalysis, mbind, M_bind. rewrite runDeepAnalysis_run.
  unfold lift, emit, get, modify, await, spread, throw, mret, M_ret.
  cbn [res log loaded absorb url push_screenshot freshResult].
  destruct (newContext w) as [[] | e1]; cbn.
  2: { eexists _, _. split; [reflexivity |]. vm_compute; intuition congruence. }
  destruct (mobileNewPage w) as [[] | e2]; cbn.
  2: { eexists _, _. split; [reflexivity |]. vm_compute; intuition congruence. }
  destruct (mobileGoto w u) as [[] | e3]; cbn.
  2: { eexists _, _. split; [reflexivity |]. vm_compute; intuition congruence. }
  destruct (mobileScreenshot w u) as [shot | e4]; cbn.
  2: { eexists _, _. split; [reflexivity |]. vm_compute; intuition congruence. }
  destruct (result (analyzer w fullMobileAudit)) as [[v |] | e5]; cbn.
  2, 3: eexists _, _; (split; [reflexivity |]); vm_compute; intuition congruence.
  destruct (f_issues v) as [mi |]; cbn.
  2: { eexists _, _. split; [reflexivity |]. vm_compute; intuition congruence. }
  destruct (f_recommendations v) as [mr |]; cbn.
  2: { eexists _, _. split; [reflexivity |]. vm_compute; intuition congruence. }
  eexists _, _. split; [reflexivity |]. vm_compute; intuition congruence.
Qed.

Lemma full_tier_mobile_leak_witness :
  ∃ r evs,
    analyzePage mobileOfflineWorld "http://localhost:3000" "full" None = (Returns r, evs)
    ∧ (leaked MobileContext evs = true
       ↔ newContext mobileOfflineWorld = Returns tt ∧ error r ≠ None).
Proof.
  destruct (full_tier_mobile_leak mobileOfflineWorld "http://localhost:3000"
              "shot.png" None eq_refl eq_refl eq_refl)
    as (r & evs & Hrun & Hctx & _).
  by exists r, evs.
Defined.

(** X13.  When the mobile part succeeds, the full tier returns the result
    of the deep tier extended by the mobile screenshot and by the issues and
    recommendations of the mobile audit, appended last; the metrics of the
    mobile audit are not merged.  The mobile page, the mobile context and
    the page of the call are closed in this order. *)
Theorem full_tier_success (w : World) (u path shot : string) (sel : prop)
    (fm : Fragment) (mi : list Issue) (mr : list Recommendation) :
  newPage w = Returns tt → goto w u = Returns tt → screenshot w u = Returns path →
  mobileSucceeds w u shot fm mi mr →
  ∃ r,
    analyzePage w u "full" sel
      = (Returns r,
         [Open MainPage; Goto MainPage u; Screenshot MainPage]
           ++ (Invoke <$> quickBatch ++ deepBatch)
           ++ [Open MobileContext; Open MobilePage; Goto MobilePage u;
               Screenshot MobilePage; Invoke fullMobileAudit;
               Close MobilePage; Close MobileContext; Close MainPage])
    ∧ issues r = concat (issuesOf <$> fulfilledOf w (quickBatch ++ deepBatch)) ++ mi
    ∧ recommendations r
      = concat (recommendationsOf <$> fulfilledOf w (quickBatch ++ deepBatch)) ++ mr
    ∧ screenshots r = [path; shot]
    ∧ metrics r
      = foldl Object_assign ∅ (metricsOf <$> fulfilledOf w (quickBatch ++ deepBatch))
    ∧ error r = None.
Proof.
  intros Hnew Hgoto Hshot (Hctx & Hpage & Hmgoto & Hmshot & Haudit & Hmi & Hmr).
  rewrite (analyzePage_full w u path sel Hnew Hgoto Hshot).
  rewrite fulfilledOf_app, !fmap_app, !concat_app, foldl_app.
  unfold runFullAnalysis, mbind, M_bind. rewrite runDeepAnalysis_run.
  unfold lift, emit, get, modify, await, spread, throw, mret, M_ret.
  cbn [res log loaded absorb url push_screenshot freshResult].
  rewrite Hctx, Hpage. cbn. rewrite Hmgoto, Hmshot. cbn.
  rewrite Haudit. cbn. rewrite Hmi. cbn. rewrite Hmr. cbn.
  eexists. split; [reflexivity |]. by repeat split.
Qed.

Lemma full_tier_success_witness :
  ∃ r evs,
    analyzePage calmWorld "http://localhost:3000" "full" None = (Returns r, evs)
    ∧ screenshots r = ["shot.png"; "shot-mobile.png"]
    ∧ error r = None.
Proof.
  destruct (full_tier_success calmWorld "http://localhost:3000" "shot.png"
              "shot-mobile.png" None emptyFragment [] [] eq_refl eq_refl eq_refl
              (conj eq_refl (conj eq_refl (conj eq_refl (conj eq_refl
                 (conj eq_refl (conj eq_refl eq_refl)))))))
    as (r & Hrun & _ & _ & Hshots & _ & Herr).
  exists r. eexists. split; [exact Hrun |]. by split.
Defined.
